(** * Verification of strawberry's asynchronous HTTP view

    Shallow embedding of [strawberry/http/async_base_view.py]:
    request parsing ([parse_http_body], [parse_multipart]), the operation
    gate and dispatch ([execute_operation], [run]), the multipart framing
    ([encode_multipart_data]) and the heartbeat multiplexer
    ([_stream_with_heartbeat]). *)

From Stdlib Require Import ZArith List String Ascii Lia Bool.
From stdpp Require Import base gmap strings list pretty.

#[local] Set Warnings "-register-all".

Local Open Scope string_scope.
Local Open Scope Z_scope.

(** ** Python values and exceptions *)

(** The values that flow through the view: what [json.loads] produces,
    plus the handle of an uploaded file.  A JSON object keeps the order of
    its keys, as a Python [dict] does, hence the association list. *)
Inductive value : Type :=
| VNone
| VBool (b : bool)
| VInt (z : Z)
| VStr (s : string)
| VList (l : list value)
| VDict (d : list (string * value))
| VFile (handle : string).

Inductive OperationType : Type := QUERY | MUTATION | SUBSCRIPTION.

Global Instance OperationType_eq_dec : EqDecision OperationType.
Proof. solve_decision. Defined.

(** The exceptions the view raises or lets through. *)
Inductive exn : Type :=
| HTTPException (status : Z) (reason : string)
| JSONDecodeError
| KeyError (key : string)
| ValueError (msg : string)
| AttributeError
| AssertionError
| InvalidOperationTypeError (operation_type : OperationType)
| MissingQueryError
| CancelledError
| GraphQLFailure (msg : string).

(** A computation either returns or raises. *)
Inductive result (A : Type) : Type :=
| Ok (a : A)
| Raise (e : exn).
Arguments Ok {A} a.
Arguments Raise {A} e.

Definition bind {A B} (m : result A) (k : A -> result B) : result B :=
  match m with
  | Ok a => k a
  | Raise e => Raise e
  end.

(** [try: m except h]: the handler sees every exception of [m] and either
    replaces it or lets it through. *)
Definition try_except {A} (m : result A) (h : exn -> option exn) : result A :=
  match m with
  | Ok a => Ok a
  | Raise e => match h e with Some e' => Raise e' | None => Raise e end
  end.

Global Instance result_bind : MBind result := fun _ _ k m => bind m k.
Global Instance result_ret : MRet result := fun _ a => Ok a.

(** ** Dictionaries *)

Fixpoint assoc_get (k : string) (d : list (string * value)) : option value :=
  match d with
  | [] => None
  | (k', v) :: d' => if String.eqb k k' then Some v else assoc_get k d'
  end.

Fixpoint assoc_set (k : string) (v : value) (d : list (string * value))
  : list (string * value) :=
  match d with
  | [] => [(k, v)]
  | (k', v') :: d' =>
      if String.eqb k k' then (k, v) :: d' else (k', v') :: assoc_set k v d'
  end.

(** [data.get(key)]: [None] when the key is absent; an [AttributeError]
    when [data] is not a dictionary. *)
Definition dict_get (key : string) (data : value) : result value :=
  match data with
  | VDict d => Ok (default VNone (assoc_get key d))
  | _ => Raise AttributeError
  end.

(** [needle in hay] on strings. *)
Fixpoint str_contains (needle hay : string) : bool :=
  String.prefix needle hay ||
  match hay with
  | EmptyString => false
  | String _ rest => str_contains needle rest
  end.

(** ** Requests *)

Record FormData : Type := mkFormData {
  form : gmap string value;
  files : gmap string value
}.

Record AsyncHTTPRequestAdapter : Type := mkAdapter {
  query_params : gmap string string;
  method : string;
  headers : gmap string string;
  content_type : option string;
  get_body : result string;
  get_form_data : result FormData
}.

Inductive Protocol : Type := http | multipart_subscription.

Global Instance Protocol_eq_dec : EqDecision Protocol.
Proof. solve_decision. Defined.

Record GraphQLRequestData : Type := mkRequestData {
  query : value;
  variables : value;
  operation_name : value;
  protocol : Protocol
}.

(** ** Uploaded files *)

(** [path.split(".")]. *)
Fixpoint split_dot_aux (acc : string) (s : string) : list string :=
  match s with
  | EmptyString => [acc]
  | String c rest =>
      if Ascii.eqb c "." then acc :: split_dot_aux EmptyString rest
      else split_dot_aux (acc +:+ String c EmptyString) rest
  end.

Definition split_dot (s : string) : list string := split_dot_aux EmptyString s.

(** [int(key)] for a list index written in decimal. *)
Fixpoint int_of_digits (acc : nat) (s : string) : option nat :=
  match s with
  | EmptyString => Some acc
  | String c rest =>
      let n := nat_of_ascii c in
      if (48 <=? n)%nat && (n <=? 57)%nat
      then int_of_digits (10 * acc + (n - 48))%nat rest
      else None
  end.

Definition int_of_key (key : string) : result nat :=
  match key with
  | EmptyString => Raise (ValueError "invalid literal for int()")
  | _ => match int_of_digits 0%nat key with
         | Some n => Ok n
         | None => Raise (ValueError "invalid literal for int()")
         end
  end.

(** Store [file] at [path] inside [target]: the keys but the last are
    followed, which needs each of them present; the last one is assigned. *)
Fixpoint set_path (path : list string) (file : value) (target : value)
  : result value :=
  match path with
  | [] => Ok file
  | key :: rest =>
      match target with
      | VDict d =>
          match rest with
          | [] => Ok (VDict (assoc_set key file d))
          | _ =>
              match assoc_get key d with
              | None => Raise (KeyError key)
              | Some child =>
                  child' ← set_path rest file child;
                  Ok (VDict (assoc_set key child' d))
              end
          end
      | VList l =>
          i ← int_of_key key;
          match l !! i with
          | None => Raise (ValueError "list index out of range")
          | Some child =>
              child' ← set_path rest file child;
              Ok (VList (<[i := child']> l))
          end
      | _ => Raise (ValueError "object is not subscriptable")
      end
  end.

Fixpoint set_paths (paths : list value) (file : value) (operations : value)
  : result value :=
  match paths with
  | [] => Ok operations
  | VStr path :: rest =>
      operations' ← set_path (split_dot path) file operations;
      set_paths rest file operations'
  | _ :: _ => Raise AttributeError
  end.

Fixpoint replace_entries (entries : list (string * value))
  (uploaded : gmap string value) (operations : value) : result value :=
  match entries with
  | [] => Ok operations
  | (field_name, paths) :: rest =>
      match uploaded !! field_name with
      | None => Raise (KeyError field_name)
      | Some file_object =>
          match paths with
          | VList ps =>
              operations' ← set_paths ps file_object operations;
              replace_entries rest uploaded operations'
          | _ => Raise AttributeError
          end
      end
  end.

(** Modelled from the spec: [replace_placeholders_with_files] of
    [strawberry.file_uploads.utils] is not part of the sources at hand.
    The spec has it "substitute file placeholders found in [map] with actual
    uploaded file handles from the form; missing referenced file is a
    missing-upload error": every entry of the map names an uploaded file and
    the dotted paths inside [operations] that receive its handle, and a name
    absent from the uploaded files is a [KeyError]. *)
Definition replace_placeholders_with_files (operations files_map : value)
  (uploaded : gmap string value) : result value :=
  match files_map with
  | VDict entries => replace_entries entries uploaded operations
  | _ => Raise AttributeError
  end.

(** ** Execution results and asynchronous sequences *)

Record ExecutionResult : Type := mkResult {
  data : value;
  errors : list string
}.

(** An asynchronous generator, as far as its consumer can tell: between two
    items it may stay suspended for some time, it may raise, and once its
    steps are used up it is exhausted.  [on_cancel] is what comes out when
    the task awaiting it is cancelled: the cancellation itself ([None]) or
    an exception of the generator's own clean-up. *)
Inductive Step (A : Type) : Type :=
| Sleep (seconds : nat)
| Produce (item : A)
| Fail (e : exn).
Arguments Sleep {A} seconds.
Arguments Produce {A} item.
Arguments Fail {A} e.

Record AsyncGenerator (A : Type) : Type := mkGen {
  steps : list (Step A);
  on_cancel : option exn
}.
Arguments mkGen {A} steps on_cancel.
Arguments steps {A} _.
Arguments on_cancel {A} _.

Definition SubscriptionExecutionResult : Type := AsyncGenerator ExecutionResult.

Inductive Outcome : Type :=
| Single (r : ExecutionResult)
| Subscription (r : SubscriptionExecutionResult).

(** What [_stream_with_heartbeat] returns: the generator [merged], closed
    over the stream it multiplexes with the heartbeat. *)
Inductive MergedStream : Type :=
| merged_over (stream : AsyncGenerator string).

Inductive Response : Type :=
| JsonResponse (response_data : value)
| IdeResponse
| StreamingResponse (stream : MergedStream)
    (response_headers : list (string * string)).

(** ** The schema *)

(** What the view needs of the execution engine.  [operation_type_of] is the
    kind of the operation that a document and an operation name select, when
    the document has one; [resolve] runs it; [subscription_results] is the
    generator of results that a subscription operation gives. *)
Class Schema (Context RootValue : Type) : Type := {
  operation_type_of : value -> value -> option OperationType;
  resolve : value -> option RootValue -> value -> Context -> value
            -> ExecutionResult;
  subscription_results : value -> value -> Context -> option RootValue
                         -> value -> SubscriptionExecutionResult
}.

(** Modelled from the spec: [OperationType.from_http] of
    [strawberry.types.graphql] is not part of the sources at hand.  The spec
    has "GET→{query}; POST→{query,mutation,subscription}"; the view lets no
    other method reach it. *)
Definition from_http (m : string) : result (list OperationType) :=
  if String.eqb m "GET" then Ok [QUERY]
  else if String.eqb m "POST" then Ok [QUERY; MUTATION; SUBSCRIPTION]
  else Raise (ValueError "Unsupported HTTP method").

(** [allowed - {kind}]. *)
Definition remove_kind (kind : OperationType) (allowed : list OperationType)
  : list OperationType :=
  filter (fun k => k <> kind) allowed.

Section Engine.
Context {Context RootValue : Type} `{!Schema Context RootValue}.

(** Modelled from the spec: [schema.execute] is not part of the sources at
    hand.  The spec has the engine reject "with [MissingQuery] when [query]
    is null/absent" and "with [InvalidOperationType] when the engine
    determines the parsed query's operation kind is not in
    [allowedKinds]"; every other failure is data inside the result. *)
Definition schema_execute (q : value) (root_value : option RootValue)
  (variable_values : value) (context_value : Context)
  (operation_name : value) (allowed_operation_types : list OperationType)
  : result ExecutionResult :=
  match q with
  | VNone => Raise MissingQueryError
  | _ =>
      match operation_type_of q operation_name with
      | Some kind =>
          if decide (kind ∈ allowed_operation_types)
          then Ok (resolve q root_value variable_values context_value
                     operation_name)
          else Raise (InvalidOperationTypeError kind)
      | None =>
          Ok (resolve q root_value variable_values context_value
                operation_name)
      end
  end.

(** Modelled from the spec: [schema.subscribe] is not part of the sources at
    hand.  The spec has the engine's "subscribe(same args) -> sequence of
    SingleResult", with the rejections of [execute]: "with [MissingQuery]
    when [query] is null/absent" and "with [InvalidOperationType] when the
    engine determines the parsed query's operation kind is not in
    [allowedKinds]".  [execute_operation] hands it no allowed kinds: what
    the engine allows through [subscribe] is the subscription operation
    alone.  A document with no operation to select is answered with a
    single result, which carries the error. *)
Definition schema_subscribe (q : value) (variable_values : value)
  (context_value : Context) (root_value : option RootValue)
  (operation_name : value) : result Outcome :=
  match q with
  | VNone => Raise MissingQueryError
  | _ =>
      match operation_type_of q operation_name with
      | Some SUBSCRIPTION =>
          Ok (Subscription
                (subscription_results q variable_values context_value
                   root_value operation_name))
      | Some kind => Raise (InvalidOperationTypeError kind)
      | None =>
          Ok (Single (resolve q root_value variable_values context_value
                        operation_name))
      end
  end.
End Engine.

(** ** The view *)

(** The abstract methods of [AsyncBaseHTTPView] and the helpers it inherits
    from [BaseView], which the host framework provides. *)
Class ViewOps (Context RootValue : Type) : Type := {
  allow_queries_via_get : bool;
  graphql_ide : bool;
  is_request_allowed : AsyncHTTPRequestAdapter -> bool;
  should_render_graphql_ide : AsyncHTTPRequestAdapter -> bool;
  parse_json : string -> result value;
  encode_json : value -> string;
  parse_query_params : gmap string string -> result value;
  parse_content_type : string -> string * gmap string string;
  is_multipart_subscriptions : string -> gmap string string -> bool;
  process_result : ExecutionResult -> value;
  as_http_error_reason : OperationType -> string -> string;
  get_context : AsyncHTTPRequestAdapter -> Context;
  get_root_value : AsyncHTTPRequestAdapter -> option RootValue;
  create_streaming_response :
    MergedStream -> list (string * string) -> result Response;
  (** [bool(context)], which [assert context] tests. *)
  truthy : Context -> bool
}.

Definition CRLF : string := String "013" (String "010" EmptyString).
Definition LF : string := String "010" EmptyString.

Section View.
Context {Context RootValue : Type}.
Context `{!Schema Context RootValue} `{!ViewOps Context RootValue}.

Definition parse_multipart (request : AsyncHTTPRequestAdapter)
  : result value :=
  form_data ← try_except (get_form_data request)
    (fun e => match e with
              | ValueError _ =>
                  Some (HTTPException 400 "Unable to parse the multipart body")
              | _ => None
              end);
  let operations := default (VStr "{}") (form form_data !! "operations") in
  let files_map := default (VStr "{}") (form form_data !! "map") in
  operations ← match operations with
                | VStr text => parse_json text
                | _ => Ok operations
                end;
  files_map ← match files_map with
               | VStr text => parse_json text
               | _ => Ok files_map
               end;
  try_except
    (replace_placeholders_with_files operations files_map (files form_data))
    (fun e => match e with
              | KeyError _ =>
                  Some (HTTPException 400 "File(s) missing in form data")
              | _ => None
              end).

Definition parse_multipart_subscriptions (request : AsyncHTTPRequestAdapter)
  : result value :=
  if String.eqb (method request) "GET"
  then parse_query_params (query_params request)
  else body ← get_body request; parse_json body.

(** [GraphQLRequestData(query=data.get("query"), ...)]. *)
Definition request_data_of (data : value) (protocol : Protocol)
  : result GraphQLRequestData :=
  q ← dict_get "query" data;
  vars ← dict_get "variables" data;
  name ← dict_get "operationName" data;
  Ok (mkRequestData q vars name protocol).

Definition parse_http_body (request : AsyncHTTPRequestAdapter)
  : result GraphQLRequestData :=
  let '(mime, params) := parse_content_type (default EmptyString (content_type request)) in
  '(data, protocol) ←
    (if String.eqb (method request) "GET" then
       data ← parse_query_params (query_params request);
       Ok (data, if is_multipart_subscriptions mime params
                 then multipart_subscription else http)
     else if str_contains "application/json" mime then
       body ← get_body request;
       data ← parse_json body;
       Ok (data, http)
     else if String.eqb mime "multipart/form-data" then
       data ← parse_multipart request;
       Ok (data, http)
     else if is_multipart_subscriptions mime params then
       data ← parse_multipart_subscriptions request;
       Ok (data, multipart_subscription)
     else Raise (HTTPException 400 "Unsupported content type"));
  request_data_of data protocol.

(** The operation kinds that [execute_operation] hands to the schema. *)
Definition allowed_operation_types (m : string)
  : result (list OperationType) :=
  allowed ← from_http m;
  Ok (if negb allow_queries_via_get && String.eqb m "GET"
      then remove_kind QUERY allowed else allowed).

(** [assert self.schema] holds of every view here: its schema is the
    instance of [Schema] that the view is given. *)
Definition execute_operation (request : AsyncHTTPRequestAdapter)
  (context : Context) (root_value : option RootValue) : result Outcome :=
  request_data ← try_except (parse_http_body request)
    (fun e => match e with
              | JSONDecodeError =>
                  Some (HTTPException 400 "Unable to parse request body as JSON")
              | KeyError _ =>
                  Some (HTTPException 400 "File(s) missing in form data")
              | _ => None
              end);
  allowed ← allowed_operation_types (method request);
  if decide (protocol request_data = multipart_subscription) then
    schema_subscribe (query request_data) (variables request_data) context
      root_value (operation_name request_data)
  else
    r ← schema_execute (query request_data) root_value
          (variables request_data) context (operation_name request_data)
          allowed;
    Ok (Single r).

Definition encode_multipart_data (payload : value) (separator : string)
  : string :=
  (CRLF +:+ "--" +:+ separator +:+ CRLF)
  +:+ ("Content-Type: application/json" +:+ CRLF +:+ CRLF)
  +:+ encode_json payload
  +:+ LF.

Definition closing_frame (separator : string) : string :=
  CRLF +:+ "--" +:+ separator +:+ "--" +:+ CRLF.

(** The generator [stream] of [_get_stream]: every result as one part,
    then the closing boundary once the results are exhausted. *)
Definition encode_step (separator : string) (s : Step ExecutionResult)
  : Step string :=
  match s with
  | Sleep d => Sleep d
  | Produce r =>
      Produce (encode_multipart_data
                 (VDict [("payload", process_result r)]) separator)
  | Fail e => Fail e
  end.

Definition stream_of (result : SubscriptionExecutionResult)
  (separator : string) : AsyncGenerator string :=
  mkGen (map (encode_step separator) (steps result)
           ++ [Produce (closing_frame separator)])
        (on_cancel result).

Definition _get_stream (result : SubscriptionExecutionResult)
  : MergedStream :=
  merged_over (stream_of result "graphql").

Definition streaming_headers : list (string * string) :=
  [("Transfer-Encoding", "chunked");
   ("Content-Type",
    "multipart/mixed;boundary=graphql;subscriptionSpec=1.0,application/json")].

Definition run (request : AsyncHTTPRequestAdapter) : result Response :=
  if negb (is_request_allowed request) then
    Raise (HTTPException 405 "GraphQL only supports GET and POST requests.")
  else if should_render_graphql_ide request then
    if graphql_ide then Ok IdeResponse
    else Raise (HTTPException 404 "Not Found")
  else
    let context := get_context request in
    let root_value := get_root_value request in
    if negb (truthy context) then Raise AssertionError
    else
    outcome ← try_except (execute_operation request context root_value)
      (fun e => match e with
                | InvalidOperationTypeError kind =>
                    Some (HTTPException 400
                            (as_http_error_reason kind (method request)))
                | MissingQueryError =>
                    Some (HTTPException 400
                            "No GraphQL query found in the request")
                | _ => None
                end);
    match outcome with
    | Subscription result =>
        create_streaming_response (_get_stream result) streaming_headers
    | Single result => Ok (JsonResponse (process_result result))
    end.
End View.

(** * The heartbeat multiplexer

    [_stream_with_heartbeat] runs three coroutines on one event loop: the
    generator [merged] together with whoever iterates it, and the tasks
    [drain] and [heartbeat] it creates.  The model below is the event loop
    as those coroutines see it: a FIFO of tasks ready to run, timers, the
    one-slot queue with its waiting getters and putters, and for every
    coroutine the [await] at which it is suspended.  A task that runs keeps
    running until its next [await] that really suspends. *)
Module Mux.

Local Open Scope nat_scope.

Inductive task : Type := Main | Drain | Heartbeat.

Global Instance task_eq_dec : EqDecision task.
Proof. solve_decision. Defined.

(** What the queue carries: the pairs [(False, frame)] that [drain] and
    [heartbeat] put, and the pair [(True, e)] of [drain]'s handler. *)
Inductive item : Type :=
| Data (frame : string)
| Error (e : exn).

Definition raised (it : item) : bool :=
  match it with
  | Data _ => false
  | Error _ => true
  end.

(** How a task ended. *)
Inductive settled : Type :=
| Returned
| Cancelled
| Failed (e : exn).

(** A cancellation requested and not yet delivered: the future the task
    awaited was cancelled, or the task was already scheduled to run and
    will find the request at its next step. *)
Inductive cancel_request : Type :=
| NoRequest
| FutureCancelled
| MustCancel.

(** Where [drain] stands. *)
Inductive drain_pc : Type :=
| DrainCreated
| DrainAwaitingStream
| DrainPutting (it : item) (in_handler : bool)
| DrainDone (r : settled).

(** Where [heartbeat] stands. *)
Inductive heartbeat_pc : Type :=
| HeartbeatCreated
| HeartbeatPutting
| HeartbeatSleeping
| HeartbeatDone (r : settled).

(** Why [merged] leaves its [try] block: the loop condition failed, the
    consumer closed the generator at a [yield], or an exception is on its
    way out. *)
Inductive exit_reason : Type :=
| Exhausted
| Closed
| Raising (e : exn).

(** Where [merged] stands.  [first] tells the call of [cancel_tasks] under
    [if raised] from the one in [finally]. *)
Inductive main_pc : Type :=
| MainCreated
| MainGetting
| MainYielded
| MainAwaitingDrain (first : bool) (why : exit_reason)
| MainAwaitingHeartbeat (first : bool) (why : exit_reason)
| MainDone (why : exit_reason).

(** What the consumer does with a frame before it asks for the next one:
    ask at once, stay suspended for a while ([Pause 0]: until the loop's
    next turn), or close the generator. *)
Inductive reaction : Type :=
| Next
| Pause (seconds : nat)
| Close.

Inductive event : Type :=
| Pushed (time : nat) (who : task) (it : item)
| Yielded (time : nat) (frame : string)
| SetCancelling
| CancelCalled (who : task)
| Awaited (who : task) (r : settled).

Record state : Type := mkState {
  now : nat;
  ready : list task;
  timers : list (nat * task);
  queue : list item;
  getters : list task;
  putters : list task;
  cancelling : bool;
  stream : list (Step string);
  stream_on_cancel : option exn;
  drain : drain_pc;
  drain_cancel : cancel_request;
  heartbeat : heartbeat_pc;
  heartbeat_cancel : cancel_request;
  main : main_pc;
  consumer : list reaction;
  log : list event
}.

(** Field updates. *)
Definition set_now (v : nat) (st : state) : state :=
  mkState v (ready st) (timers st) (queue st) (getters st) (putters st)
    (cancelling st) (stream st) (stream_on_cancel st) (drain st)
    (drain_cancel st) (heartbeat st) (heartbeat_cancel st) (main st)
    (consumer st) (log st).
Definition set_ready (v : list task) (st : state) : state :=
  mkState (now st) v (timers st) (queue st) (getters st) (putters st)
    (cancelling st) (stream st) (stream_on_cancel st) (drain st)
    (drain_cancel st) (heartbeat st) (heartbeat_cancel st) (main st)
    (consumer st) (log st).
Definition set_timers (v : list (nat * task)) (st : state) : state :=
  mkState (now st) (ready st) v (queue st) (getters st) (putters st)
    (cancelling st) (stream st) (stream_on_cancel st) (drain st)
    (drain_cancel st) (heartbeat st) (heartbeat_cancel st) (main st)
    (consumer st) (log st).
Definition set_queue (v : list item) (st : state) : state :=
  mkState (now st) (ready st) (timers st) v (getters st) (putters st)
    (cancelling st) (stream st) (stream_on_cancel st) (drain st)
    (drain_cancel st) (heartbeat st) (heartbeat_cancel st) (main st)
    (consumer st) (log st).
Definition set_getters (v : list task) (st : state) : state :=
  mkState (now st) (ready st) (timers st) (queue st) v (putters st)
    (cancelling st) (stream st) (stream_on_cancel st) (drain st)
    (drain_cancel st) (heartbeat st) (heartbeat_cancel st) (main st)
    (consumer st) (log st).
Definition set_putters (v : list task) (st : state) : state :=
  mkState (now st) (ready st) (timers st) (queue st) (getters st) v
    (cancelling st) (stream st) (stream_on_cancel st) (drain st)
    (drain_cancel st) (heartbeat st) (heartbeat_cancel st) (main st)
    (consumer st) (log st).
Definition set_cancelling (v : bool) (st : state) : state :=
  mkState (now st) (ready st) (timers st) (queue st) (getters st)
    (putters st) v (stream st) (stream_on_cancel st) (drain st)
    (drain_cancel st) (heartbeat st) (heartbeat_cancel st) (main st)
    (consumer st) (log st).
Definition set_stream (v : list (Step string)) (st : state) : state :=
  mkState (now st) (ready st) (timers st) (queue st) (getters st)
    (putters st) (cancelling st) v (stream_on_cancel st) (drain st)
    (drain_cancel st) (heartbeat st) (heartbeat_cancel st) (main st)
    (consumer st) (log st).
Definition set_drain (v : drain_pc) (st : state) : state :=
  mkState (now st) (ready st) (timers st) (queue st) (getters st)
    (putters st) (cancelling st) (stream st) (stream_on_cancel st) v
    (drain_cancel st) (heartbeat st) (heartbeat_cancel st) (main st)
    (consumer st) (log st).
Definition set_drain_cancel (v : cancel_request) (st : state) : state :=
  mkState (now st) (ready st) (timers st) (queue st) (getters st)
    (putters st) (cancelling st) (stream st) (stream_on_cancel st)
    (drain st) v (heartbeat st) (heartbeat_cancel st) (main st)
    (consumer st) (log st).
Definition set_heartbeat (v : heartbeat_pc) (st : state) : state :=
  mkState (now st) (ready st) (timers st) (queue st) (getters st)
    (putters st) (cancelling st) (stream st) (stream_on_cancel st)
    (drain st) (drain_cancel st) v (heartbeat_cancel st) (main st)
    (consumer st) (log st).
Definition set_heartbeat_cancel (v : cancel_request) (st : state) : state :=
  mkState (now st) (ready st) (timers st) (queue st) (getters st)
    (putters st) (cancelling st) (stream st) (stream_on_cancel st)
    (drain st) (drain_cancel st) (heartbeat st) v (main st) (consumer
    st) (log st).
Definition set_main (v : main_pc) (st : state) : state :=
  mkState (now st) (ready st) (timers st) (queue st) (getters st)
    (putters st) (cancelling st) (stream st) (stream_on_cancel st)
    (drain st) (drain_cancel st) (heartbeat st) (heartbeat_cancel st) v
    (consumer st) (log st).
Definition set_consumer (v : list reaction) (st : state) : state :=
  mkState (now st) (ready st) (timers st) (queue st) (getters st)
    (putters st) (cancelling st) (stream st) (stream_on_cancel st)
    (drain st) (drain_cancel st) (heartbeat st) (heartbeat_cancel st)
    (main st) v (log st).
Definition set_log (v : list event) (st : state) : state :=
  mkState (now st) (ready st) (timers st) (queue st) (getters st)
    (putters st) (cancelling st) (stream st) (stream_on_cancel st)
    (drain st) (drain_cancel st) (heartbeat st) (heartbeat_cancel st)
    (main st) (consumer st) v.


(** ** The event loop and the queue *)

Definition emit (e : event) (st : state) : state :=
  set_log (log st ++ [e]) st.

(** [loop.call_soon]. *)
Definition schedule (t : task) (st : state) : state :=
  set_ready (ready st ++ [t]) st.

(** [asyncio.sleep(d)]: a bare turn of the loop when [d] is [0], a timer
    otherwise. *)
Definition suspend_for (d : nat) (t : task) (st : state) : state :=
  match d with
  | 0 => schedule t st
  | _ => set_timers (timers st ++ [(now st + d, t)]) st
  end.

Definition wakeup_next_getter (st : state) : state :=
  match getters st with
  | [] => st
  | t :: rest => schedule t (set_getters rest st)
  end.

Definition wakeup_next_putter (st : state) : state :=
  match putters st with
  | [] => st
  | t :: rest => schedule t (set_putters rest st)
  end.

(** [asyncio.Queue(1)]. *)
Definition maxsize : nat := 1.

Definition full (st : state) : bool := maxsize <=? length (queue st).

Definition put_nowait (who : task) (it : item) (st : state) : state :=
  wakeup_next_getter
    (emit (Pushed (now st) who it) (set_queue (queue st ++ [it]) st)).

Definition wait_to_put (who : task) (st : state) : state :=
  set_putters (putters st ++ [who]) st.

(** ** Tasks settling and being cancelled *)

Definition settle_drain (r : settled) (st : state) : state :=
  let st := set_drain (DrainDone r) st in
  match main st with
  | MainAwaitingDrain _ _ => schedule Main st
  | _ => st
  end.

Definition settle_heartbeat (r : settled) (st : state) : state :=
  let st := set_heartbeat (HeartbeatDone r) st in
  match main st with
  | MainAwaitingHeartbeat _ _ => schedule Main st
  | _ => st
  end.

Definition unschedule (t : task) (st : state) : state :=
  set_timers (filter (fun p => p.2 <> t) (timers st))
    (set_putters (filter (fun u => u <> t) (putters st)) st).

(** [Task.cancel()] on a task that has not settled: the future it awaits
    is cancelled, which schedules the task; a task already scheduled is
    marked instead. *)
Definition request_cancel (t : task) (current : cancel_request)
  (st : state) : cancel_request * state :=
  if decide (t ∈ ready st)
  then (match current with NoRequest => MustCancel | c => c end, st)
  else (FutureCancelled, schedule t (unschedule t st)).

Definition cancel_drain (st : state) : state :=
  match drain st with
  | DrainDone _ => st
  | _ =>
      let '(c, st) := request_cancel Drain (drain_cancel st) st in
      set_drain_cancel c st
  end.

Definition cancel_heartbeat (st : state) : state :=
  match heartbeat st with
  | HeartbeatDone _ => st
  | _ =>
      let '(c, st) := request_cancel Heartbeat (heartbeat_cancel st) st in
      set_heartbeat_cancel c st
  end.

(** The [except] clause of [Queue.put]: a putter that had been woken up
    and is cancelled instead passes its turn on. *)
Definition abandon_put (c : cancel_request) (st : state) : state :=
  match c with
  | MustCancel => if full st then st else wakeup_next_putter st
  | _ => st
  end.


(** ** [drain] *)

(** The handler [except Exception as e] of [drain]. *)
Definition drain_handler (e : exn) (st : state) : state :=
  if cancelling st then settle_drain (Failed e) st
  else if full st
       then set_drain (DrainPutting (Error e) true) (wait_to_put Drain st)
       else settle_drain Returned (put_nowait Drain (Error e) st).

(** An exception that comes out of [stream()].  A [CancelledError] is no
    [Exception]: it passes the handler by and cancels the task. *)
Definition drain_raise (e : exn) (st : state) : state :=
  match e with
  | CancelledError => settle_drain Cancelled st
  | _ => drain_handler e st
  end.

(** [async for item in stream(): await queue.put((False, item))], from
    the point where the next item is asked of the stream. *)
Fixpoint drain_iterate (rest : list (Step string)) (st : state) : state :=
  match rest with
  | [] => settle_drain Returned (set_stream [] st)
  | Sleep d :: rest' =>
      suspend_for d Drain (set_drain DrainAwaitingStream (set_stream rest' st))
  | Produce frame :: rest' =>
      if full st
      then set_drain (DrainPutting (Data frame) false)
             (wait_to_put Drain (set_stream rest' st))
      else drain_iterate rest' (put_nowait Drain (Data frame) st)
  | Fail e :: rest' => drain_raise e (set_stream rest' st)
  end.

(** [drain] is given the loop, no cancellation pending. *)
Definition drain_continue (st : state) : state :=
  match drain st with
  | DrainCreated | DrainAwaitingStream => drain_iterate (stream st) st
  | DrainPutting it in_handler =>
      if full st then wait_to_put Drain st
      else
        let st := put_nowait Drain it st in
        if in_handler then settle_drain Returned st
        else drain_iterate (stream st) st
  | DrainDone _ => st
  end.

(** [drain] is given the loop and finds a [CancelledError] at the [await]
    where it was suspended. *)
Definition drain_cancelled (c : cancel_request) (st : state) : state :=
  match drain st with
  | DrainCreated => settle_drain Cancelled st
  | DrainAwaitingStream =>
      match stream_on_cancel st with
      | None => settle_drain Cancelled st
      | Some e => drain_raise e st
      end
  | DrainPutting _ _ => settle_drain Cancelled (abandon_put c st)
  | DrainDone _ => st
  end.

Definition run_drain (st : state) : state :=
  match drain_cancel st with
  | NoRequest => drain_continue st
  | c => drain_cancelled c (set_drain_cancel NoRequest st)
  end.

(** ** [heartbeat] *)

Section Heartbeat.
(** [self.encode_multipart_data({}, "graphql")]. *)
Variable heartbeat_frame : string.

Definition heartbeat_interval : nat := 5.

(** One turn of [while True]: put the frame, then sleep. *)
Definition heartbeat_turn (st : state) : state :=
  if full st
  then set_heartbeat HeartbeatPutting (wait_to_put Heartbeat st)
  else suspend_for heartbeat_interval Heartbeat
         (set_heartbeat HeartbeatSleeping
            (put_nowait Heartbeat (Data heartbeat_frame) st)).

Definition heartbeat_continue (st : state) : state :=
  match heartbeat st with
  | HeartbeatDone _ => st
  | _ => heartbeat_turn st
  end.

Definition heartbeat_cancelled (c : cancel_request) (st : state) : state :=
  match heartbeat st with
  | HeartbeatDone _ => st
  | HeartbeatPutting => settle_heartbeat Cancelled (abandon_put c st)
  | _ => settle_heartbeat Cancelled st
  end.

Definition run_heartbeat (st : state) : state :=
  match heartbeat_cancel st with
  | NoRequest => heartbeat_continue st
  | c => heartbeat_cancelled c (set_heartbeat_cancel NoRequest st)
  end.
End Heartbeat.


(** ** [merged] and its consumer *)

Definition finish (why : exit_reason) (st : state) : state :=
  set_main (MainDone why) st.

(** [cancel_tasks], cut at its two [await]s.  [ret] is what follows when
    it returns and [exc] what follows when it raises; awaiting a task that
    was cancelled raises the [CancelledError] that is suppressed, awaiting
    one that failed raises its exception, which is not. *)
Definition heartbeat_awaited (ret : state -> state)
  (exc : exn -> state -> state) (r : settled) (st : state) : state :=
  let st := emit (Awaited Heartbeat r) st in
  match r with
  | Failed e => exc e st
  | _ => ret st
  end.

Definition drain_awaited (first : bool) (why : exit_reason)
  (ret : state -> state) (exc : exn -> state -> state) (r : settled)
  (st : state) : state :=
  let st := emit (Awaited Drain r) st in
  match r with
  | Failed e => exc e st
  | _ =>
      let st := emit (CancelCalled Heartbeat) (cancel_heartbeat st) in
      match heartbeat st with
      | HeartbeatDone r' => heartbeat_awaited ret exc r' st
      | _ => set_main (MainAwaitingHeartbeat first why) st
      end
  end.

Definition cancel_tasks (first : bool) (why : exit_reason)
  (ret : state -> state) (exc : exn -> state -> state) (st : state)
  : state :=
  let st := emit SetCancelling (set_cancelling true st) in
  let st := emit (CancelCalled Drain) (cancel_drain st) in
  match drain st with
  | DrainDone r => drain_awaited first why ret exc r st
  | _ => set_main (MainAwaitingDrain first why) st
  end.

(** The [finally] clause: [await cancel_tasks()], then whatever was
    leaving the [try] block goes on, unless [cancel_tasks] itself raised. *)
Definition finally (why : exit_reason) (st : state) : state :=
  cancel_tasks false why (finish why) (fun e => finish (Raising e)) st.

(** What follows the call of [cancel_tasks] under [if raised]: [raise
    data], through [finally]. *)
Definition ret_of (first : bool) (why : exit_reason) : state -> state :=
  if first then finally why else finish why.

Definition exc_of (first : bool) (e : exn) : state -> state :=
  if first then finally (Raising e) else finish (Raising e).

(** The loop of [merged] with the consumer's reactions folded in.  [q] is
    the content of the queue; [check] is off when the coroutine resumes
    inside [queue.get()], past the loop condition. *)
Fixpoint merged_loop (check : bool) (q : list item) (st : state) : state :=
  if check && match drain st with DrainDone _ => true | _ => false end
  then finally Exhausted st
  else
    match q with
    | [] => set_main MainGetting (set_getters (getters st ++ [Main]) st)
    | it :: q' =>
        let st := wakeup_next_putter (set_queue q' st) in
        match it with
        | Error e =>
            cancel_tasks true (Raising e) (ret_of true (Raising e))
              (exc_of true) st
        | Data frame =>
            let st := emit (Yielded (now st) frame) st in
            match consumer st with
            | [] => merged_loop true q' st
            | Next :: rest => merged_loop true q' (set_consumer rest st)
            | Pause d :: rest =>
                suspend_for d Main (set_main MainYielded (set_consumer rest st))
            | Close :: rest => finally Closed (set_consumer rest st)
            end
        end
    end.

Definition run_main (st : state) : state :=
  match main st with
  | MainCreated =>
      merged_loop true (queue st) (schedule Drain (schedule Heartbeat st))
  | MainGetting => merged_loop false (queue st) st
  | MainYielded => merged_loop true (queue st) st
  | MainAwaitingDrain first why =>
      match drain st with
      | DrainDone r =>
          drain_awaited first why (ret_of first why) (exc_of first) r st
      | _ => st
      end
  | MainAwaitingHeartbeat first why =>
      match heartbeat st with
      | HeartbeatDone r =>
          heartbeat_awaited (ret_of first why) (exc_of first) r st
      | _ => st
      end
  | MainDone _ => st
  end.

(** ** Running the loop *)

Section Loop.
Variable heartbeat_frame : string.

Definition run_task (t : task) (st : state) : state :=
  match t with
  | Main => run_main st
  | Drain => run_drain st
  | Heartbeat => run_heartbeat heartbeat_frame st
  end.

Definition earliest (ts : list (nat * task)) : option nat :=
  match ts with
  | [] => None
  | (t0, _) :: rest => Some (foldr (fun p m => Nat.min p.1 m) t0 rest)
  end.

(** Nothing is ready: time passes until the earliest timers fire. *)
Definition fire_timers (st : state) : option state :=
  match earliest (timers st) with
  | None => None
  | Some t =>
      let due := filter (fun p => p.1 = t) (timers st) in
      let later := filter (fun p => p.1 <> t) (timers st) in
      Some (set_ready (ready st ++ map snd due)
              (set_timers later (set_now t st)))
  end.

Definition step (st : state) : option state :=
  match ready st with
  | t :: rest => Some (run_task t (set_ready rest st))
  | [] => fire_timers st
  end.

(** The loop runs until [merged] is over, or nothing is left to run. *)
Fixpoint exec (fuel : nat) (st : state) : state :=
  match fuel with
  | 0 => st
  | S fuel' =>
      match main st with
      | MainDone _ => st
      | _ =>
          match step st with
          | Some st' => exec fuel' st'
          | None => st
          end
      end
  end.
End Loop.

(** The consumer asks [merged] for its first frame. *)
Definition start (source : AsyncGenerator string) (reactions : list reaction)
  : state :=
  mkState 0 [Main] [] [] [] [] false (steps source) (on_cancel source)
    DrainCreated NoRequest HeartbeatCreated NoRequest MainCreated
    reactions [].

Definition frames (st : state) : list (nat * string) :=
  omap (fun e => match e with
                 | Yielded t f => Some (t, f)
                 | _ => None
                 end) (log st).

End Mux.

(** * The specification's side *)

(** ** The decision table of the body parser *)

Inductive Strategy : Type :=
| QueryStringParse
| JsonBodyParse
| MultipartFormParse
| MultipartSubscriptionParse.

Section Table.
Context {Context RootValue : Type}.
Context `{!Schema Context RootValue} `{!ViewOps Context RootValue}.

(** The table of the specification, read on the method and the content
    type alone: the row that applies, if any. *)
Definition strategy_table (m : string) (ct : option string)
  : option Strategy :=
  let '(mime, params) := parse_content_type (default EmptyString ct) in
  if String.eqb m "GET" then Some QueryStringParse
  else if str_contains "application/json" mime then Some JsonBodyParse
  else if String.eqb mime "multipart/form-data" then Some MultipartFormParse
  else if is_multipart_subscriptions mime params
       then Some MultipartSubscriptionParse
  else None.

(** What a strategy does with the request. *)
Definition apply_strategy (s : Strategy) (request : AsyncHTTPRequestAdapter)
  : result value :=
  match s with
  | QueryStringParse => parse_query_params (query_params request)
  | JsonBodyParse => body ← get_body request; parse_json body
  | MultipartFormParse => parse_multipart request
  | MultipartSubscriptionParse => parse_multipart_subscriptions request
  end.

(** The protocol that goes with the row. *)
Definition protocol_of (s : Strategy) (ct : option string) : Protocol :=
  let '(mime, params) := parse_content_type (default EmptyString ct) in
  match s with
  | QueryStringParse =>
      if is_multipart_subscriptions mime params
      then multipart_subscription else http
  | MultipartSubscriptionParse => multipart_subscription
  | _ => http
  end.
End Table.

(** ** Reading a multipart body back *)

(** [strip_prefix p s] is what follows [p] in [s], when [s] starts with
    [p]. *)
Fixpoint strip_prefix (p s : string) : option string :=
  match p with
  | EmptyString => Some s
  | String a p' =>
      match s with
      | EmptyString => None
      | String b s' => if Ascii.eqb a b then strip_prefix p' s' else None
      end
  end.

(** The text up to the first occurrence of [delim], and what follows that
    occurrence. *)
Fixpoint split_at_delimiter (delim s : string) : option (string * string) :=
  match strip_prefix delim s with
  | Some rest => Some (EmptyString, rest)
  | None =>
      match s with
      | EmptyString => None
      | String c s' =>
          match split_at_delimiter delim s' with
          | Some (before, rest) => Some (String c before, rest)
          | None => None
          end
      end
  end.

(** The delimiter line that opens a part: a line break, two dashes, the
    boundary. *)
Definition delimiter (boundary : string) : string :=
  CRLF +:+ "--" +:+ boundary.

Definition part_header : string :=
  "Content-Type: application/json" +:+ CRLF +:+ CRLF.

(** One part read off the front of a multipart body: the body must open
    with the delimiter line, then comes the part header, then the payload,
    which runs up to the next delimiter.  The result is the payload and the
    body from that next delimiter on. *)
Definition read_part (boundary : string) (body : string)
  : option (string * string) :=
  match strip_prefix (delimiter boundary +:+ CRLF) body with
  | None => None
  | Some after_delimiter =>
      match strip_prefix part_header after_delimiter with
      | None => None
      | Some after_header =>
          match split_at_delimiter (delimiter boundary) after_header with
          | None => None
          | Some (payload, rest) => Some (payload, delimiter boundary +:+ rest)
          end
      end
  end.

(** No occurrence of the character [c] in [s]. *)
Fixpoint free_of (c : ascii) (s : string) : bool :=
  match s with
  | EmptyString => true
  | String a rest => negb (Ascii.eqb a c) && free_of c rest
  end.

Definition CR : ascii := "013"%char.

(** * A concrete view

    A small host on which the statements below are tried: a schema with one
    field per operation kind, and the helpers of [BaseView] written out for
    the simple cases. *)
Module Sample.

Definition double_quote : string := String "034" EmptyString.

Definition quoted (s : string) : string :=
  double_quote +:+ s +:+ double_quote.

(** *** JSON text *)

Fixpoint escape (s : string) : string :=
  match s with
  | EmptyString => EmptyString
  | String c rest =>
      (if Ascii.eqb c "034" then "\" +:+ double_quote
       else if Ascii.eqb c "\" then "\\"
       else if Ascii.eqb c "013" then "\r"
       else if Ascii.eqb c "010" then "\n"
       else String c EmptyString) +:+ escape rest
  end.

Fixpoint dumps (v : value) : string :=
  match v with
  | VNone => "null"
  | VBool true => "true"
  | VBool false => "false"
  | VInt z => pretty z
  | VStr s => quoted (escape s)
  | VList l =>
      "[" +:+
      (fix items (l : list value) : string :=
         match l with
         | [] => EmptyString
         | [x] => dumps x
         | x :: rest => dumps x +:+ ", " +:+ items rest
         end) l +:+ "]"
  | VDict d =>
      "{" +:+
      (fix members (d : list (string * value)) : string :=
         match d with
         | [] => EmptyString
         | [(k, x)] => quoted (escape k) +:+ ": " +:+ dumps x
         | (k, x) :: rest =>
             quoted (escape k) +:+ ": " +:+ dumps x +:+ ", " +:+ members rest
         end) d +:+ "}"
  | VFile _ => "null"
  end.

Definition hello_query : string := "{ hello }".
Definition subscription_query : string := "subscription { count }".
Definition upload_query : string := "{ upload(file: $f) }".

Definition hello_operations : value := VDict [("query", VStr hello_query)].
Definition upload_operations : value :=
  VDict [("query", VStr upload_query); ("variables", VDict [("f", VNone)])].
Definition upload_map : value := VDict [("f", VList [VStr "variables.f"])].

(** The decoder, on the texts that the requests below carry. *)
Definition loads (text : string) : result value :=
  if String.eqb text "{}" then Ok (VDict [])
  else if String.eqb text (dumps hello_operations) then Ok hello_operations
  else if String.eqb text (dumps upload_operations) then Ok upload_operations
  else if String.eqb text (dumps upload_map) then Ok upload_map
  else Raise JSONDecodeError.

(** *** Content types *)

Fixpoint split_on (sep : ascii) (acc : string) (s : string) : list string :=
  match s with
  | EmptyString => [acc]
  | String c rest =>
      if Ascii.eqb c sep then acc :: split_on sep EmptyString rest
      else split_on sep (acc +:+ String c EmptyString) rest
  end.

Definition parameter (text : string) : option (string * string) :=
  match split_on "=" EmptyString text with
  | [k; v] => Some (k, v)
  | _ => None
  end.

Definition content_type_of (header : string) : string * gmap string string :=
  match split_on ";" EmptyString header with
  | [] => (EmptyString, ∅)
  | mime :: params => (mime, list_to_map (omap parameter params))
  end.

Definition subscriptions_marker (mime : string) (params : gmap string string)
  : bool :=
  String.eqb mime "multipart/mixed"
  && bool_decide (params !! "boundary" = Some "graphql")
  && match params !! "subscriptionSpec" with
     | Some v => String.prefix "1.0" v
     | None => false
     end.

Definition query_string (params : gmap string string) : result value :=
  let fields := map (fun kv => (kv.1, VStr kv.2)) (map_to_list params) in
  match params !! "variables" with
  | Some text =>
      if String.eqb text EmptyString then Ok (VDict fields)
      else vars ← loads text; Ok (VDict (assoc_set "variables" vars fields))
  | None => Ok (VDict fields)
  end.

(** *** The schema and the view *)

Definition kind_of_document (q : value) (name : value)
  : option OperationType :=
  match q with
  | VStr text =>
      Some (if String.prefix "mutation" text then MUTATION
            else if String.prefix "subscription" text then SUBSCRIPTION
            else QUERY)
  | _ => None
  end.

Definition hello_world : ExecutionResult :=
  mkResult (VDict [("hello", VStr "world")]) [].

Definition schema : Schema unit unit := {|
  operation_type_of := kind_of_document;
  resolve := fun _ _ _ _ _ => hello_world;
  subscription_results := fun _ _ _ _ _ =>
    mkGen [Sleep 1; Produce hello_world] None
|}.

Definition kind_name (k : OperationType) : string :=
  match k with
  | QUERY => "queries"
  | MUTATION => "mutations"
  | SUBSCRIPTION => "subscriptions"
  end.

Definition view (queries_via_get : bool) : ViewOps unit unit := {|
  allow_queries_via_get := queries_via_get;
  graphql_ide := false;
  is_request_allowed := fun r =>
    String.eqb (method r) "GET" || String.eqb (method r) "POST";
  should_render_graphql_ide := fun r =>
    String.eqb (method r) "GET"
    && bool_decide (query_params r !! "query" = None)
    && str_contains "text/html" (default EmptyString (headers r !! "accept"));
  parse_json := loads;
  encode_json := dumps;
  parse_query_params := query_string;
  parse_content_type := content_type_of;
  is_multipart_subscriptions := subscriptions_marker;
  process_result := fun r => VDict [("data", data r)];
  as_http_error_reason := fun k m =>
    kind_name k +:+ " are not allowed when using " +:+ m;
  get_context := fun _ => tt;
  get_root_value := fun _ => None;
  create_streaming_response := fun s h => Ok (StreamingResponse s h);
  truthy := fun _ => true
|}.

(** *** Requests *)

Definition get_request (ct : option string) (q : string)
  : AsyncHTTPRequestAdapter :=
  mkAdapter {["query" := q]} "GET" ∅ ct (Ok EmptyString)
    (Raise (ValueError "no form data")).

Definition post_request (ct : string) (body : string)
  : AsyncHTTPRequestAdapter :=
  mkAdapter ∅ "POST" ∅ (Some ct) (Ok body)
    (Raise (ValueError "no form data")).

Definition form_request (fields uploaded : gmap string value)
  : AsyncHTTPRequestAdapter :=
  mkAdapter ∅ "POST" ∅ (Some "multipart/form-data") (Ok EmptyString)
    (Ok (mkFormData fields uploaded)).

Definition subscription_content_type : string :=
  "multipart/mixed;boundary=graphql;subscriptionSpec=1.0".
End Sample.


(** * The base class on its own *)

Module AsyncBaseHTTPView.

(** The method as the base class has it.  A host that serves subscriptions
    overrides it. *)
Definition create_streaming_response (stream : MergedStream)
  (headers : list (string * string)) : result Response :=
  Raise (ValueError "Multipart responses are not supported").

End AsyncBaseHTTPView.

(** A host that overrides nothing of the base class, and whose JSON decoder
    reads the empty array as well. *)
Module Plain.

Definition loads (text : string) : result value :=
  if String.eqb text "[]" then Ok (VList []) else Sample.loads text.

Definition view : ViewOps unit unit := {|
  allow_queries_via_get := true;
  graphql_ide := false;
  is_request_allowed := fun r =>
    String.eqb (method r) "GET" || String.eqb (method r) "POST";
  should_render_graphql_ide := fun _ => false;
  parse_json := loads;
  encode_json := Sample.dumps;
  parse_query_params := Sample.query_string;
  parse_content_type := Sample.content_type_of;
  is_multipart_subscriptions := Sample.subscriptions_marker;
  process_result := fun r => VDict [("data", data r)];
  as_http_error_reason := fun k m =>
    Sample.kind_name k +:+ " are not allowed when using " +:+ m;
  get_context := fun _ => tt;
  get_root_value := fun _ => None;
  create_streaming_response := AsyncBaseHTTPView.create_streaming_response;
  truthy := fun _ => true
|}.

End Plain.

(** * Reading a whole stream back *)

(** What a generator yields, in order, leaving out when: all that it
    produces, up to the exception that ends it if it raises one. *)
Fixpoint produced {A} (script : list (Step A)) : list A :=
  match script with
  | [] => []
  | Sleep _ :: rest => produced rest
  | Produce a :: rest => a :: produced rest
  | Fail _ :: _ => []
  end.

(** The body that the client receives: the frames one after the other. *)
Definition body_of (chunks : list string) : string :=
  foldr String.append EmptyString chunks.

(** The parts of a multipart body, up to its closing boundary. *)
Fixpoint read_parts (boundary : string) (fuel : nat) (body : string)
  : option (list string) :=
  match fuel with
  | O => None
  | S fuel' =>
      match strip_prefix (delimiter boundary +:+ "--" +:+ CRLF) body with
      | Some _ => Some []
      | None =>
          match read_part boundary body with
          | Some (payload, rest) =>
              match read_parts boundary fuel' rest with
              | Some payloads => Some (payload :: payloads)
              | None => None
              end
          | None => None
          end
      end
  end.

(** * Invariants of the multiplexer *)

Module MuxInv.
Import Mux.

(** [heartbeat] has no [return] and raises nothing: it ends cancelled. *)
Definition heartbeat_only_cancelled (st : state) : Prop :=
  forall r, heartbeat st = HeartbeatDone r -> r = Cancelled.

Definition survived (r : settled) : Prop :=
  match r with
  | Failed _ => False
  | _ => True
  end.

Global Instance survived_dec (r : settled) : Decision (survived r).
Proof. destruct r; [left; exact I|left; exact I|right; intros []]. Defined.

(** What holds of the two tasks when [merged] is over with [why]. *)
Definition settled_at_end (why : exit_reason) (st : state) : Prop :=
  exists r,
    drain st = DrainDone r
    /\ match r with
       | Failed e => why = Raising e
       | _ => heartbeat st = HeartbeatDone Cancelled
       end.

(** Where [merged] awaits [heartbeat_task], [drain] has settled without an
    exception; where it is over, the two tasks are as above. *)
Definition main_inv (st : state) : Prop :=
  match main st with
  | MainAwaitingHeartbeat _ _ =>
      exists r, drain st = DrainDone r /\ survived r
  | MainDone why => settled_at_end why st
  | _ => True
  end.

Definition teardown_inv (st : state) : Prop :=
  heartbeat_only_cancelled st /\ main_inv st.
End MuxInv.


Module MuxLog.
Import Mux.

(** The items that were put into the queue, in the order of the puts. *)
Definition pushed (st : state) : list item :=
  omap (fun e => match e with
                 | Pushed _ _ it => Some it
                 | _ => None
                 end) (log st).

(** The frames that [merged] has yielded, as the items they were. *)
Definition yielded (st : state) : list item :=
  map (fun p => Data p.2) (frames st).

Definition account (st : state) : list item * list item * list item :=
  (pushed st, yielded st, queue st).

(** [merged] is on its way out with an exception. *)
Definition raising (pc : main_pc) : bool :=
  match pc with
  | MainAwaitingDrain _ (Raising _)
  | MainAwaitingHeartbeat _ (Raising _)
  | MainDone (Raising _) => true
  | _ => false
  end.

(** The items put are the frames yielded, then [dropped], then the content
    of the queue. *)
Definition balance (dropped : list item) (st : state) : Prop :=
  pushed st = (yielded st ++ dropped ++ queue st)%list.

(** Every item put is yielded, or still in the queue, or the one error pair
    that [merged] has pulled and is about to raise. *)
Definition fifo_inv (st : state) : Prop :=
  exists dropped,
    balance dropped st
    /\ (dropped = []
        \/ (raising (main st) = true /\ exists e, dropped = [Error e])).
End MuxLog.


Module MuxPrompt.
Import Mux.

(** A consumer that asks for the next frame, or closes the generator, as
    soon as it has a frame. *)
Definition prompt (r : reaction) : bool :=
  match r with
  | Pause _ => false
  | _ => true
  end.

(** Where [merged] stands when its consumer is prompt: never suspended at a
    [yield]; and once it has found the stream exhausted, the queue is empty
    and stays so, [drain] being over and [heartbeat] cancelled. *)
Definition prompt_main (st : state) : Prop :=
  match main st with
  | MainCreated | MainYielded => False
  | MainGetting => True
  | MainAwaitingDrain _ why => why <> Exhausted
  | MainAwaitingHeartbeat _ why =>
      why = Exhausted ->
      queue st = []
      /\ (exists r, drain st = DrainDone r)
      /\ (heartbeat_cancel st <> NoRequest
          \/ exists r, heartbeat st = HeartbeatDone r)
  | MainDone why => why = Exhausted -> queue st = []
  end.

(** [merged] has left its loop for another reason than exhaustion. *)
Definition leaving (pc : main_pc) : bool :=
  match pc with
  | MainAwaitingDrain _ (Closed | Raising _)
  | MainAwaitingHeartbeat _ (Closed | Raising _)
  | MainDone (Closed | Raising _) => true
  | _ => false
  end.

Definition prompt_inv (st : state) : Prop :=
  (length (queue st) <= maxsize)%nat
  /\ forallb prompt (consumer st) = true
  /\ prompt_main st.
End MuxPrompt.


Module MuxSource.
Import Mux.

(** A step of a generator other than an exception. *)
Definition unfailing {A} (s : Step A) : bool :=
  match s with
  | Fail _ => false
  | _ => true
  end.

(** The frames that [drain] has put, in the order of the puts. *)
Definition drain_frames (st : state) : list string :=
  omap (fun e => match e with
                 | Pushed _ Drain (Data f) => Some f
                 | _ => None
                 end) (log st).

(** [merged] has left its loop. *)
Definition past_loop (pc : main_pc) : bool :=
  match pc with
  | MainCreated | MainGetting | MainYielded => false
  | _ => true
  end.

(** [merged] has left its loop because the stream is exhausted. *)
Definition exhausting (pc : main_pc) : bool :=
  match pc with
  | MainAwaitingDrain _ Exhausted
  | MainAwaitingHeartbeat _ Exhausted
  | MainDone Exhausted => true
  | _ => false
  end.

(** [drain] as long as nobody cancels it, on a stream that raises nothing:
    the frames of the stream are those it has put, the one it may be
    waiting to put, and those that the stream has yet to yield. *)
Definition untouched (script : list string) (st : state) : Prop :=
  drain_cancel st = NoRequest
  /\ forallb unfailing (stream st) = true
  /\ match drain st with
     | DrainCreated | DrainAwaitingStream =>
         script = (drain_frames st ++ produced (stream st))%list
     | DrainPutting (Data f) false =>
         script = (drain_frames st ++ f :: produced (stream st))%list
     | DrainDone Returned => script = drain_frames st
     | _ => False
     end.

(** The frame that an item carries, when it is no error pair. *)
Definition frame_of (it : item) : option string :=
  match it with
  | Data f => Some f
  | Error _ => None
  end.

Definition source_inv (script : list string) (st : state) : Prop :=
  (past_loop (main st) = false -> untouched script st)
  /\ (exhausting (main st) = true ->
      drain st = DrainDone Returned /\ script = drain_frames st).
End MuxSource.


(** * Statements under test

    Two sentences of the specification, as they are written, for a view and
    a request. *)
Section Statements.
Context {Context RootValue : Type}.
Context `{!Schema Context RootValue} `{!ViewOps Context RootValue}.

(** "For every request, dispatch enforces the allowed operation kinds":
    whenever the kind of the parsed operation is not among the kinds allowed
    for the method, the request is rejected with the invalid-operation-type
    error, a 400. *)
Definition gate_enforced (request : AsyncHTTPRequestAdapter) : Prop :=
  forall request_data kind allowed,
    parse_http_body request = Ok request_data ->
    operation_type_of (query request_data) (operation_name request_data)
    = Some kind ->
    allowed_operation_types (method request) = Ok allowed ->
    kind ∉ allowed ->
    run request
    = Raise (HTTPException 400 (as_http_error_reason kind (method request))).

(** "For every multipart/form-data POST in which the [operations] or [map]
    form field is absent, parsing does not fail", the request data has no
    query, and the request is rejected at dispatch with the missing-query
    error, a 400. *)
Definition absent_field_rejected_at_dispatch
  (request : AsyncHTTPRequestAdapter) : Prop :=
  forall form_data,
    method request = "POST" ->
    (parse_content_type (default EmptyString (content_type request))).1
    = "multipart/form-data" ->
    get_form_data request = Ok form_data ->
    form form_data !! "operations" = None \/ form form_data !! "map" = None ->
    (exists request_data,
       parse_http_body request = Ok request_data
       /\ query request_data = VNone)
    /\ run request
       = Raise (HTTPException 400 "No GraphQL query found in the request").
End Statements.

(** * Properties of the body parser *)

Section ParserFacts.
Context {Context RootValue : Type}.
Context `{!Schema Context RootValue} `{!ViewOps Context RootValue}.

Lemma bind_ok {A B} (a : A) (k : A -> result B) : (Ok a ≫= k) = k a.
Proof. reflexivity. Qed.

Lemma bind_raise {A B} (e : exn) (k : A -> result B) :
  (Raise e ≫= k) = Raise e.
Proof. reflexivity. Qed.

Lemma bind_assoc_pair (m : result value) (p : Protocol) :
  ('(data, protocol) ← (data ← m; Ok (data, p)); request_data_of data protocol)
  = (data ← m; request_data_of data p).
Proof. destruct m; reflexivity. Qed.

(** The parser follows the decision table: the row that the method and the
    content type select is the one strategy that runs, and its outcome is
    the parser's. *)
Lemma parse_http_body_table (request : AsyncHTTPRequestAdapter) :
  parse_http_body request =
  match strategy_table (method request) (content_type request) with
  | Some s =>
      data ← apply_strategy s request;
      request_data_of data (protocol_of s (content_type request))
  | None => Raise (HTTPException 400 "Unsupported content type")
  end.
Proof.
  unfold parse_http_body, strategy_table, protocol_of.
  destruct (parse_content_type _) as [mime params].
  destruct (String.eqb (method request) "GET").
  { cbn [apply_strategy]. apply bind_assoc_pair. }
  destruct (str_contains "application/json" mime).
  { cbn [apply_strategy].
    destruct (get_body request) as [body|e]; [|reflexivity].
    rewrite !bind_ok. apply bind_assoc_pair. }
  destruct (String.eqb mime "multipart/form-data").
  { cbn [apply_strategy]. apply bind_assoc_pair. }
  destruct (is_multipart_subscriptions mime params).
  { cbn [apply_strategy]. apply bind_assoc_pair. }
  reflexivity.
Qed.

(** C6. Every request gets the one parsing strategy that its method and
    content type select in the decision table, and the parser's outcome is
    that strategy's, whatever it is; a request other than GET whose content
    type matches no row fails with [HTTPException 400 "Unsupported content
    type"]; a GET request is parsed from its query parameters under any
    content type, so that the table never refuses it. *)
Theorem parse_http_body_one_strategy :
  (forall request,
     parse_http_body request =
     match strategy_table (method request) (content_type request) with
     | Some s =>
         data ← apply_strategy s request;
         request_data_of data (protocol_of s (content_type request))
     | None => Raise (HTTPException 400 "Unsupported content type")
     end)
  /\ (forall request,
        let '(mime, params) :=
          parse_content_type (default EmptyString (content_type request)) in
        method request = "POST" ->
        str_contains "application/json" mime = false ->
        mime <> "multipart/form-data" ->
        is_multipart_subscriptions mime params = false ->
        parse_http_body request
        = Raise (HTTPException 400 "Unsupported content type"))
  /\ (forall request,
        method request = "GET" ->
        strategy_table (method request) (content_type request)
        = Some QueryStringParse
        /\ parse_http_body request =
           (data ← parse_query_params (query_params request);
            request_data_of data
              (protocol_of QueryStringParse (content_type request)))).
Proof.
  split; [exact parse_http_body_table|split].
  - intros request.
    destruct (parse_content_type _) as [mime params] eqn:Hct.
    intros Hm Hjson Hform Hsub.
    rewrite parse_http_body_table. unfold strategy_table.
    rewrite Hct, Hm, Hjson, Hsub. cbn.
    destruct (String.eqb_spec mime "multipart/form-data"); [done|reflexivity].
  - intros request Hm.
    assert (Ht : strategy_table (method request) (content_type request)
                 = Some QueryStringParse).
    { unfold strategy_table. rewrite Hm.
      destruct (parse_content_type _); reflexivity. }
    split; [exact Ht|].
    rewrite parse_http_body_table, Ht. reflexivity.
Qed.
End ParserFacts.

Section JsonBodyFacts.
Context {Context RootValue : Type}.
Context `{!Schema Context RootValue} `{!ViewOps Context RootValue}.

(** C7. A POST request whose content type has [application/json] in it and
    whose body decodes to a JSON object with a [query] field is parsed to
    the request data that carries this [query], the object's [variables]
    and [operationName], each of the two [None] when the object has no such
    field, and the protocol [http]. *)
Theorem json_post_request_data (request : AsyncHTTPRequestAdapter)
  (body : string) (fields : list (string * value)) (q : value) :
  method request = "POST" ->
  str_contains "application/json"
    (parse_content_type (default EmptyString (content_type request))).1
  = true ->
  get_body request = Ok body ->
  parse_json body = Ok (VDict fields) ->
  assoc_get "query" fields = Some q ->
  parse_http_body request
  = Ok {| query := q;
          variables := default VNone (assoc_get "variables" fields);
          operation_name := default VNone (assoc_get "operationName" fields);
          protocol := http |}.
Proof.
  intros Hm Hjson Hbody Hparse Hq.
  unfold parse_http_body.
  destruct (parse_content_type _) as [mime params]. cbn in Hjson.
  rewrite Hm, Hjson. cbn.
  rewrite Hbody. cbn. rewrite Hparse. cbn.
  unfold request_data_of. cbn. rewrite Hq. reflexivity.
Qed.
End JsonBodyFacts.

Lemma json_post_request_data_witness :
  @parse_http_body _ _ (Sample.view false)
    (Sample.post_request "application/json"
       (Sample.dumps Sample.hello_operations))
  = Ok {| query := VStr Sample.hello_query;
          variables := VNone;
          operation_name := VNone;
          protocol := http |}.
Proof.
  apply (@json_post_request_data _ _ (Sample.view false)
           (Sample.post_request "application/json"
              (Sample.dumps Sample.hello_operations))
           (Sample.dumps Sample.hello_operations)
           [("query", VStr Sample.hello_query)] (VStr Sample.hello_query));
    reflexivity.
Defined.

Section UploadFacts.
Context {Context RootValue : Type}.
Context `{!Schema Context RootValue} `{!ViewOps Context RootValue}.

(** C8. A multipart form request whose [operations] field decodes to
    [{"query": "{ upload(file: $f) }", "variables": {"f": null}}] and whose
    [map] field decodes to [{"f": ["variables.f"]}]: when the form carries
    an uploaded file named [f], the request data has this file as
    [variables.f]; when it does not, parsing raises [HTTPException 400
    "File(s) missing in form data"], which is also what [execute_operation]
    raises, and what [run] raises once [assert context] has passed. *)
Theorem upload_scenario (request : AsyncHTTPRequestAdapter)
  (fields uploaded : gmap string value) (operations_text map_text : string) :
  method request = "POST" ->
  (parse_content_type (default EmptyString (content_type request))).1
  = "multipart/form-data" ->
  get_form_data request = Ok (mkFormData fields uploaded) ->
  fields !! "operations" = Some (VStr operations_text) ->
  fields !! "map" = Some (VStr map_text) ->
  parse_json operations_text = Ok Sample.upload_operations ->
  parse_json map_text = Ok Sample.upload_map ->
  is_request_allowed request = true ->
  should_render_graphql_ide request = false ->
  truthy (get_context request) = true ->
  (forall handle,
     uploaded !! "f" = Some handle ->
     parse_http_body request
     = Ok {| query := VStr Sample.upload_query;
             variables := VDict [("f", handle)];
             operation_name := VNone;
             protocol := http |})
  /\ (uploaded !! "f" = None ->
      let missing := HTTPException 400 "File(s) missing in form data" in
      parse_http_body request = Raise missing
      /\ (forall context root_value,
            execute_operation request context root_value = Raise missing)
      /\ run request = Raise missing).
Proof.
  intros Hm Hct Hform Hops Hmap Hpops Hpmap Hallowed Hide Hcontext.
  assert (Hparse : parse_http_body request
                   = (data ← parse_multipart request; request_data_of data http)).
  { unfold parse_http_body.
    destruct (parse_content_type _) as [mime params]. cbn in Hct. subst mime.
    rewrite Hm. cbn. destruct (parse_multipart request); reflexivity. }
  assert (Hmulti : parse_multipart request
                   = try_except
                       (replace_placeholders_with_files Sample.upload_operations
                          Sample.upload_map uploaded)
                       (fun e => match e with
                                 | KeyError _ =>
                                     Some (HTTPException 400
                                             "File(s) missing in form data")
                                 | _ => None
                                 end)).
  { unfold parse_multipart. rewrite Hform. cbn.
    rewrite Hops, Hmap. cbn. rewrite Hpops. cbn. rewrite Hpmap. reflexivity. }
  split.
  - intros handle Hf. rewrite Hparse, Hmulti. cbn. rewrite Hf. reflexivity.
  - intros Hf missing.
    assert (Hraise : parse_http_body request = Raise missing).
    { rewrite Hparse, Hmulti. cbn. rewrite Hf. reflexivity. }
    assert (Hexec : forall context root_value,
              execute_operation request context root_value = Raise missing).
    { intros. unfold execute_operation. rewrite Hraise. reflexivity. }
    repeat split; [exact Hraise|exact Hexec|].
    unfold run. rewrite Hallowed, Hide, Hcontext. cbn. rewrite Hexec.
    reflexivity.
Qed.
End UploadFacts.

Lemma upload_scenario_witness :
  let fields : gmap string value :=
    {[ "operations" := VStr (Sample.dumps Sample.upload_operations);
       "map" := VStr (Sample.dumps Sample.upload_map) ]} in
  @parse_http_body _ _ (Sample.view true)
    (Sample.form_request fields {[ "f" := VFile "f" ]})
  = Ok {| query := VStr Sample.upload_query;
          variables := VDict [("f", VFile "f")];
          operation_name := VNone;
          protocol := http |}
  /\ @run _ _ Sample.schema (Sample.view true) (Sample.form_request fields ∅)
     = Raise (HTTPException 400 "File(s) missing in form data").
Proof.
  intros fields. split.
  - apply (proj1 (@upload_scenario _ _ Sample.schema (Sample.view true)
             (Sample.form_request fields {[ "f" := VFile "f" ]})
             fields {[ "f" := VFile "f" ]}
             (Sample.dumps Sample.upload_operations)
             (Sample.dumps Sample.upload_map)
             eq_refl eq_refl eq_refl eq_refl eq_refl eq_refl eq_refl
             eq_refl eq_refl eq_refl)).
    reflexivity.
  - apply (proj2 (@upload_scenario _ _ Sample.schema (Sample.view true)
             (Sample.form_request fields ∅)
             fields ∅
             (Sample.dumps Sample.upload_operations)
             (Sample.dumps Sample.upload_map)
             eq_refl eq_refl eq_refl eq_refl eq_refl eq_refl eq_refl
             eq_refl eq_refl eq_refl)).
    reflexivity.
Defined.

(** * Properties of dispatch *)

Section FormDefaultsFacts.
Context {Context RootValue : Type}.
Context `{!Schema Context RootValue} `{!ViewOps Context RootValue}.

(** C10, amended. A multipart form POST in which both the [operations] and
    the [map] form fields are absent is parsed with each of them defaulting
    to the text of an empty JSON object: parsing succeeds with request data
    that has no query, no variables and no operation name, the schema
    raises [MissingQueryError], and [run], once [assert context] has
    passed, turns it into [HTTPException 400 "No GraphQL query found in the
    request"]. *)
Theorem absent_form_fields_missing_query (request : AsyncHTTPRequestAdapter)
  (form_data : FormData) :
  method request = "POST" ->
  (parse_content_type (default EmptyString (content_type request))).1
  = "multipart/form-data" ->
  get_form_data request = Ok form_data ->
  form form_data !! "operations" = None ->
  form form_data !! "map" = None ->
  parse_json "{}" = Ok (VDict []) ->
  is_request_allowed request = true ->
  should_render_graphql_ide request = false ->
  truthy (get_context request) = true ->
  parse_http_body request = Ok (mkRequestData VNone VNone VNone http)
  /\ (forall context root_value,
        execute_operation request context root_value = Raise MissingQueryError)
  /\ run request
     = Raise (HTTPException 400 "No GraphQL query found in the request").
Proof.
  intros Hm Hct Hform Hops Hmap Hempty Hallowed Hide Hcontext.
  assert (Hparse : parse_http_body request
                   = Ok (mkRequestData VNone VNone VNone http)).
  { unfold parse_http_body.
    destruct (parse_content_type _) as [mime params]. cbn in Hct. subst mime.
    rewrite Hm. cbn. unfold parse_multipart. rewrite Hform. cbn.
    rewrite Hops, Hmap. cbn. rewrite Hempty. reflexivity. }
  assert (Hexec : forall context root_value,
            execute_operation request context root_value
            = Raise MissingQueryError).
  { intros. unfold execute_operation, allowed_operation_types.
    rewrite Hparse, Hm. reflexivity. }
  repeat split; [exact Hparse|exact Hexec|].
  unfold run. rewrite Hallowed, Hide, Hcontext. cbn. rewrite Hexec.
  reflexivity.
Qed.
End FormDefaultsFacts.

Lemma absent_form_fields_missing_query_witness :
  @run _ _ Sample.schema (Sample.view true) (Sample.form_request ∅ ∅)
  = Raise (HTTPException 400 "No GraphQL query found in the request").
Proof.
  apply (@absent_form_fields_missing_query _ _ Sample.schema (Sample.view true)
           (Sample.form_request ∅ ∅) (mkFormData ∅ ∅));
    vm_compute; reflexivity.
Defined.

(** C10 as stated fails on a form that has [operations] and lacks [map]:
    the request data carries the query of [operations], and the request is
    answered, not rejected. *)
Lemma absent_map_counterexample :
  let request :=
    Sample.form_request
      {[ "operations" := VStr (Sample.dumps Sample.hello_operations) ]} ∅ in
  @parse_http_body _ _ (Sample.view true) request
  = Ok (mkRequestData (VStr Sample.hello_query) VNone VNone http)
  /\ @run _ _ Sample.schema (Sample.view true) request
     = Ok (JsonResponse (VDict [("data", VDict [("hello", VStr "world")])]))
  /\ ~ @absent_field_rejected_at_dispatch _ _ Sample.schema (Sample.view true)
         request.
Proof.
  intros request.
  assert (Hrun : @run _ _ Sample.schema (Sample.view true) request
            = Ok (JsonResponse
                    (VDict [("data", VDict [("hello", VStr "world")])])))
    by reflexivity.
  split; [reflexivity|split; [exact Hrun|]].
  intros Hclaim.
  destruct (Hclaim (mkFormData
                      {[ "operations" :=
                           VStr (Sample.dumps Sample.hello_operations) ]} ∅)
              eq_refl eq_refl eq_refl (or_intror eq_refl)) as [_ Hrejected].
  rewrite Hrun in Hrejected. discriminate Hrejected.
Qed.

Section GateFacts.
Context {Context RootValue : Type}.
Context `{!Schema Context RootValue} `{!ViewOps Context RootValue}.

(** The operation kinds per method: all three for POST; for GET the queries
    alone, and none when queries via GET are switched off. *)
Lemma allowed_operation_types_table :
  allowed_operation_types "POST" = Ok [QUERY; MUTATION; SUBSCRIPTION]
  /\ allowed_operation_types "GET"
     = Ok (if allow_queries_via_get then [QUERY] else []).
Proof.
  unfold allowed_operation_types. cbn.
  destruct allow_queries_via_get; split; reflexivity.
Qed.

(** C2, amended. The kinds handed to the schema are all three for POST and,
    for GET, the queries alone when queries via GET are allowed and none
    otherwise.  A request whose operation is of a kind that is not among
    them makes [execute_operation] raise [InvalidOperationTypeError] and
    [run], once [assert context] has passed, raise [HTTPException 400] with
    the reason of the invalid operation type: this whenever the protocol is
    [http], and under the protocol [multipart-subscription] for every
    operation that is no subscription.  A subscription under the protocol
    [multipart-subscription] goes to [schema.subscribe], which is not given
    the allowed kinds, and is served whatever the method allows. *)
Theorem operation_gate_enforced (request : AsyncHTTPRequestAdapter)
  (request_data : GraphQLRequestData) (kind : OperationType)
  (allowed : list OperationType) :
  is_request_allowed request = true ->
  should_render_graphql_ide request = false ->
  truthy (get_context request) = true ->
  parse_http_body request = Ok request_data ->
  query request_data <> VNone ->
  operation_type_of (query request_data) (operation_name request_data)
  = Some kind ->
  allowed_operation_types (method request) = Ok allowed ->
  (allowed_operation_types "POST" = Ok [QUERY; MUTATION; SUBSCRIPTION]
   /\ allowed_operation_types "GET"
      = Ok (if allow_queries_via_get then [QUERY] else []))
  /\ (kind ∉ allowed ->
      protocol request_data = http \/ kind <> SUBSCRIPTION ->
      (forall context root_value,
         execute_operation request context root_value
         = Raise (InvalidOperationTypeError kind))
      /\ run request
         = Raise (HTTPException 400
                    (as_http_error_reason kind (method request))))
  /\ (protocol request_data = multipart_subscription ->
      kind = SUBSCRIPTION ->
      forall context root_value,
        execute_operation request context root_value
        = Ok (Subscription
                (subscription_results (query request_data)
                   (variables request_data) context root_value
                   (operation_name request_data)))).
Proof.
  intros Hallowed Hide Hcontext Hparse Hquery Hkind Hgate.
  split; [exact allowed_operation_types_table|].
  assert (Hexec : forall context root_value,
            execute_operation request context root_value
            = if decide (protocol request_data = multipart_subscription)
              then schema_subscribe (query request_data)
                     (variables request_data) context root_value
                     (operation_name request_data)
              else r ← schema_execute (query request_data) root_value
                         (variables request_data) context
                         (operation_name request_data) allowed;
                   Ok (Single r)).
  { intros. unfold execute_operation. rewrite Hparse. cbn.
    rewrite Hgate. reflexivity. }
  split.
  - intros Hnotin Hcase.
    assert (Hraise : forall context root_value,
              execute_operation request context root_value
              = Raise (InvalidOperationTypeError kind)).
    { intros. rewrite Hexec.
      destruct (decide (protocol request_data = multipart_subscription))
        as [Hsub|Hhttp].
      - destruct Hcase as [Hproto|Hne]; [congruence|].
        unfold schema_subscribe. rewrite Hkind.
        destruct (query request_data); try done;
          (destruct kind; [reflexivity|reflexivity|done]).
      - unfold schema_execute. rewrite Hkind.
        destruct (query request_data); try done;
          (destruct (decide (kind ∈ allowed)); [done|reflexivity]). }
    split; [exact Hraise|].
    unfold run. rewrite Hallowed, Hide, Hcontext. cbn. rewrite Hraise.
    reflexivity.
  - intros Hproto -> context root_value. rewrite Hexec.
    destruct (decide (protocol request_data = multipart_subscription));
      [|done].
    unfold schema_subscribe. rewrite Hkind.
    destruct (query request_data); try done.
Qed.
End GateFacts.

Lemma operation_gate_enforced_witness :
  @run _ _ Sample.schema (Sample.view false)
    (Sample.get_request None Sample.hello_query)
  = Raise (HTTPException 400 "queries are not allowed when using GET")
  /\ @run _ _ Sample.schema (Sample.view false)
       (Sample.get_request (Some Sample.subscription_content_type)
          Sample.hello_query)
     = Raise (HTTPException 400 "queries are not allowed when using GET").
Proof.
  split.
  - apply (@operation_gate_enforced _ _ Sample.schema (Sample.view false)
             (Sample.get_request None Sample.hello_query)
             (mkRequestData (VStr Sample.hello_query) VNone VNone http)
             QUERY []);
      first [ (vm_compute; reflexivity) | done
            | (vm_compute; intros Hin; inversion Hin) | (now left) ].
  - apply (@operation_gate_enforced _ _ Sample.schema (Sample.view false)
             (Sample.get_request (Some Sample.subscription_content_type)
                Sample.hello_query)
             (mkRequestData (VStr Sample.hello_query) VNone VNone
                multipart_subscription)
             QUERY []);
      first [ (vm_compute; reflexivity) | done
            | (vm_compute; intros Hin; inversion Hin) | (now right) ].
Defined.

(** C2 as stated fails on a GET request with the multipart-subscription
    content type that carries a subscription: GET allows the queries alone,
    the operation is a subscription, and the request is served as a
    stream. *)
Lemma subscription_gate_counterexample :
  let request :=
    Sample.get_request (Some Sample.subscription_content_type)
      Sample.subscription_query in
  @allowed_operation_types _ _ (Sample.view true) (method request)
  = Ok [QUERY]
  /\ @parse_http_body _ _ (Sample.view true) request
     = Ok (mkRequestData (VStr Sample.subscription_query) VNone VNone
             multipart_subscription)
  /\ @operation_type_of _ _ Sample.schema (VStr Sample.subscription_query)
       VNone
     = Some SUBSCRIPTION
  /\ @run _ _ Sample.schema (Sample.view true) request
     = Ok (StreamingResponse
             (@_get_stream _ _ (Sample.view true)
                (mkGen [Sleep 1; Produce Sample.hello_world] None))
             streaming_headers)
  /\ ~ @gate_enforced _ _ Sample.schema (Sample.view true) request.
Proof.
  intros request.
  assert (Hrun : @run _ _ Sample.schema (Sample.view true) request
            = Ok (StreamingResponse
                    (@_get_stream _ _ (Sample.view true)
                       (mkGen [Sleep 1; Produce Sample.hello_world] None))
                    streaming_headers))
    by (vm_compute; reflexivity).
  split; [reflexivity|split; [vm_compute; reflexivity|]].
  split; [reflexivity|split; [exact Hrun|]].
  intros Hclaim.
  specialize (Hclaim (mkRequestData (VStr Sample.subscription_query) VNone
                        VNone multipart_subscription) SUBSCRIPTION [QUERY]).
  rewrite Hrun in Hclaim.
  assert (Hfalse : Ok (StreamingResponse
                    (@_get_stream _ _ (Sample.view true)
                       (mkGen [Sleep 1; Produce Sample.hello_world] None))
                    streaming_headers)
                   = Raise (HTTPException 400
                       (@as_http_error_reason _ _ (Sample.view true)
                          SUBSCRIPTION (method request)))).
  { apply Hclaim; [vm_compute; reflexivity|reflexivity|reflexivity|].
    apply not_elem_of_cons. split; [discriminate|apply not_elem_of_nil]. }
  discriminate Hfalse.
Qed.

(** * Properties of the multipart framing *)

Lemma string_app_cons (a : ascii) (s t : string) :
  String a s +:+ t = String a (s +:+ t).
Proof. reflexivity. Qed.

Lemma strip_prefix_app (p s : string) : strip_prefix p (p +:+ s) = Some s.
Proof.
  induction p as [|a p IH]; [reflexivity|].
  rewrite string_app_cons. cbn -[Ascii.eqb].
  rewrite Ascii.eqb_refl. exact IH.
Qed.

Lemma free_of_app (c : ascii) (s t : string) :
  free_of c (s +:+ t) = free_of c s && free_of c t.
Proof.
  induction s as [|a s IH]; [reflexivity|].
  rewrite string_app_cons. cbn -[Ascii.eqb].
  rewrite IH. destruct (Ascii.eqb a c); reflexivity.
Qed.

(** A text that is free of the delimiter's first character is read whole, up
    to the delimiter that follows it. *)
Lemma split_at_delimiter_free (c : ascii) (d s rest : string) :
  free_of c s = true ->
  split_at_delimiter (String c d) (s +:+ (String c d +:+ rest))
  = Some (s, rest).
Proof.
  intros Hfree. induction s as [|a s IH].
  - change (EmptyString +:+ (String c d +:+ rest)) with (String c d +:+ rest).
    rewrite string_app_cons. cbn -[strip_prefix].
    rewrite <- string_app_cons, strip_prefix_app. reflexivity.
  - cbn -[Ascii.eqb] in Hfree. apply andb_true_iff in Hfree as [Hne Hfree].
    apply negb_true_iff in Hne.
    rewrite string_app_cons. cbn -[Ascii.eqb].
    rewrite Ascii.eqb_sym, Hne, (IH Hfree). reflexivity.
Qed.

Lemma string_app_assoc (s t u : string) : (s +:+ t) +:+ u = s +:+ (t +:+ u).
Proof.
  induction s as [|a s IH]; [reflexivity|].
  rewrite !string_app_cons. now rewrite IH.
Qed.

Section FramingFacts.
Context {Context RootValue : Type}.
Context `{!ViewOps Context RootValue}.

(** C9. A payload encoded by [encode_multipart_data] with the separator
    [graphql], followed by the delimiter of whatever part comes next, is
    read back as exactly one part: the delimiter line, the header
    [Content-Type: application/json], and between it and the next delimiter
    the JSON text of the payload with its line feed, and nothing else.  The
    JSON encoder is the host's; its text must have no carriage return, as
    JSON text has none. *)
Theorem encode_multipart_data_round_trip (payload : value) (rest : string) :
  free_of CR (encode_json payload) = true ->
  read_part "graphql"
    (encode_multipart_data payload "graphql" +:+ delimiter "graphql" +:+ rest)
  = Some (encode_json payload +:+ LF, delimiter "graphql" +:+ rest).
Proof.
  intros Hfree.
  unfold read_part, encode_multipart_data.
  rewrite !string_app_assoc.
  change (CRLF +:+ "--" +:+ "graphql" +:+ CRLF +:+ ?x)
    with ((delimiter "graphql" +:+ CRLF) +:+ x).
  rewrite strip_prefix_app.
  change ("Content-Type: application/json" +:+ CRLF +:+ CRLF +:+ ?x)
    with (part_header +:+ x).
  rewrite strip_prefix_app.
  rewrite <- (string_app_assoc (encode_json payload) LF).
  change (delimiter "graphql") with (String CR (String "010" "--graphql")).
  rewrite split_at_delimiter_free; [reflexivity|].
  rewrite free_of_app, Hfree. reflexivity.
Qed.
End FramingFacts.

Lemma encode_multipart_data_round_trip_witness :
  read_part "graphql"
    (@encode_multipart_data _ _ (Sample.view true)
       (VDict [("payload", VDict [("data", VStr "--graphql")])]) "graphql"
     +:+ delimiter "graphql" +:+ ("--" +:+ CRLF))
  = Some (Sample.dumps (VDict [("payload", VDict [("data", VStr "--graphql")])])
          +:+ LF,
          delimiter "graphql" +:+ ("--" +:+ CRLF)).
Proof.
  apply (@encode_multipart_data_round_trip _ _ (Sample.view true)
           (VDict [("payload", VDict [("data", VStr "--graphql")])])
           ("--" +:+ CRLF)).
  vm_compute; reflexivity.
Defined.

(** * Properties of the multiplexer *)

Local Open Scope list_scope.

Section HeartbeatFacts.
Import Mux.
Variable heartbeat_frame : string.

(** One turn of [heartbeat]: with room in the queue the frame is pushed at
    once and the next turn is due [heartbeat_interval] later; with the slot
    taken nothing is pushed and the task waits for room. *)
Lemma heartbeat_turn_spec (st : state) :
  (full st = false ->
   queue (heartbeat_turn heartbeat_frame st)
   = queue st ++ [Data heartbeat_frame]
   /\ timers (heartbeat_turn heartbeat_frame st)
      = timers st ++ [((now st + heartbeat_interval)%nat, Heartbeat)]
   /\ heartbeat (heartbeat_turn heartbeat_frame st) = HeartbeatSleeping)
  /\ (full st = true ->
      queue (heartbeat_turn heartbeat_frame st) = queue st
      /\ putters (heartbeat_turn heartbeat_frame st)
         = putters st ++ [Heartbeat]
      /\ heartbeat (heartbeat_turn heartbeat_frame st) = HeartbeatPutting).
Proof.
  unfold heartbeat_turn. split; intros Hfull; rewrite Hfull.
  - unfold put_nowait, wakeup_next_getter.
    destruct (getters _) eqn:Hg; cbn in *; auto.
  - cbn. auto.
Qed.

(** The run of the specification's example: items after 1, 2 and 8
    seconds, then exhaustion, and a consumer that asks for every next frame
    at once. *)
Lemma example_run (f1 f2 f3 closing : string) :
  let source :=
    mkGen [Sleep 1; Produce f1; Sleep 1; Produce f2; Sleep 6; Produce f3;
           Produce closing] None in
  let final := exec heartbeat_frame 40 (start source []) in
  frames final
  = [(0, heartbeat_frame); (1, f1); (2, f2); (5, heartbeat_frame); (8, f3);
     (8, closing)]%nat
  /\ main final = MainDone Exhausted
  /\ heartbeat final = HeartbeatDone Cancelled
  /\ drain final = DrainDone Returned.
Proof. vm_compute. auto. Qed.
End HeartbeatFacts.

Section OrderingFacts.
Import Mux.
Context {Context RootValue : Type}.
Context `{!ViewOps Context RootValue}.

(** C1, amended. Results after 1, 2 and 8 seconds, then exhaustion, and a
    consumer that asks for each next frame at once: the frames it gets are
    a heartbeat at 0, the first two results at 1 and 2, a heartbeat at 5,
    the third result and then the closing frame at 8.  [heartbeat] pushes
    its frame as soon as it starts and then [heartbeat_interval] after each
    push; while the slot of the queue is taken it pushes nothing and waits
    its turn. *)
Theorem multiplexer_ordering (r1 r2 r3 : ExecutionResult) :
  let heartbeat_frame := encode_multipart_data (VDict []) "graphql" in
  let part r :=
    encode_multipart_data (VDict [("payload", process_result r)]) "graphql" in
  let results :=
    mkGen [Sleep 1; Produce r1; Sleep 1; Produce r2; Sleep 6; Produce r3]
      None in
  let final :=
    exec heartbeat_frame 40 (start (stream_of results "graphql") []) in
  frames final
  = [(0, heartbeat_frame); (1, part r1); (2, part r2); (5, heartbeat_frame);
     (8, part r3); (8, closing_frame "graphql")]%nat
  /\ main final = MainDone Exhausted
  /\ (forall st,
        full st = false ->
        queue (heartbeat_turn heartbeat_frame st)
        = queue st ++ [Data heartbeat_frame]
        /\ timers (heartbeat_turn heartbeat_frame st)
           = timers st ++ [((now st + heartbeat_interval)%nat, Heartbeat)])
  /\ (forall st,
        full st = true ->
        queue (heartbeat_turn heartbeat_frame st) = queue st
        /\ heartbeat (heartbeat_turn heartbeat_frame st) = HeartbeatPutting).
Proof.
  intros heartbeat_frame part results final.
  pose proof (example_run heartbeat_frame (part r1) (part r2) (part r3)
                (closing_frame "graphql")) as Hrun.
  cbv zeta in Hrun. destruct Hrun as (Hframes & Hmain & _).
  split; [exact Hframes|split; [exact Hmain|split]].
  - intros st Hfull.
    destruct (heartbeat_turn_spec heartbeat_frame st) as [Hroom _].
    destruct (Hroom Hfull) as (Hq & Ht & _). split; assumption.
  - intros st Hfull.
    destruct (heartbeat_turn_spec heartbeat_frame st) as [_ Htaken].
    destruct (Htaken Hfull) as (Hq & _ & Hpc). split; assumption.
Qed.
End OrderingFacts.

(** C1 as stated fails on its own example: the sequence that the consumer
    gets has six frames, the first of them a heartbeat, not the five of the
    claim. *)
Lemma leading_heartbeat_counterexample :
  let heartbeat_frame :=
    @encode_multipart_data _ _ (Sample.view true) (VDict []) "graphql" in
  let item :=
    @encode_multipart_data _ _ (Sample.view true)
      (VDict [("payload", VDict [("data", VDict [("hello", VStr "world")])])])
      "graphql" in
  let results :=
    mkGen [Sleep 1; Produce Sample.hello_world; Sleep 1;
           Produce Sample.hello_world; Sleep 6; Produce Sample.hello_world]
      None in
  let observed :=
    map snd
      (Mux.frames
         (Mux.exec heartbeat_frame 40
            (Mux.start (@stream_of _ _ (Sample.view true) results "graphql")
               []))) in
  observed
  = [heartbeat_frame; item; item; heartbeat_frame; item;
     closing_frame "graphql"]
  /\ observed
     <> [item; item; heartbeat_frame; item; closing_frame "graphql"].
Proof.
  intros heartbeat_frame item results observed.
  assert (Hobs : observed
            = [heartbeat_frame; item; item; heartbeat_frame; item;
               closing_frame "graphql"])
    by (vm_compute; reflexivity).
  split; [exact Hobs|].
  rewrite Hobs. intros Heq. apply (f_equal length) in Heq.
  cbn in Heq. discriminate Heq.
Qed.

Section ClosingFrameFacts.
Import Mux.
Context {Context RootValue : Type}.
Context `{!ViewOps Context RootValue}.

(** C4, on a consumer that is suspended for one turn of the loop after each
    frame (it awaits its own write): [drain] puts the closing frame and
    returns while the consumer is away, the loop condition of [merged]
    then finds the task done, and the closing frame stays in the queue.
    The output ends with the result, without the closing boundary. *)
Theorem closing_frame_left_in_queue (r : ExecutionResult) :
  let heartbeat_frame := encode_multipart_data (VDict []) "graphql" in
  let part :=
    encode_multipart_data (VDict [("payload", process_result r)]) "graphql" in
  let results := mkGen [Sleep 1; Produce r] None in
  let final :=
    exec heartbeat_frame 40
      (start (stream_of results "graphql") [Pause 0; Pause 0; Pause 0]) in
  frames final = [(0, heartbeat_frame); (1, part)]%nat
  /\ main final = MainDone Exhausted
  /\ drain final = DrainDone Returned
  /\ queue final = [Data (closing_frame "graphql")].
Proof.
  intros heartbeat_frame part results final.
  subst final results. unfold stream_of. cbn [map steps on_cancel encode_step app].
  fold part.
  generalize part, heartbeat_frame, (closing_frame "graphql").
  intros f hb c. vm_compute. auto.
Qed.

(** The same results and a consumer that asks for each next frame at once:
    the closing frame is the last frame of the output. *)
Lemma closing_frame_delivered (r : ExecutionResult) :
  let heartbeat_frame := encode_multipart_data (VDict []) "graphql" in
  let part :=
    encode_multipart_data (VDict [("payload", process_result r)]) "graphql" in
  let results := mkGen [Sleep 1; Produce r] None in
  let final :=
    exec heartbeat_frame 40 (start (stream_of results "graphql") []) in
  frames final
  = [(0, heartbeat_frame); (1, part); (1, closing_frame "graphql")]%nat
  /\ main final = MainDone Exhausted
  /\ queue final = [].
Proof.
  intros heartbeat_frame part results final.
  subst final results. unfold stream_of. cbn [map steps on_cancel encode_step app].
  fold part.
  generalize part, heartbeat_frame, (closing_frame "graphql").
  intros f hb c. vm_compute. auto.
Qed.
End ClosingFrameFacts.

Section TeardownFacts.
Import Mux.
Variable heartbeat_frame : string.

(** C3, on a stream whose clean-up raises when it is cancelled and a
    consumer that closes the generator after the second frame: [drain]
    re-raises since [cancelling] is set, [await task] in [cancel_tasks]
    raises that exception, which is no [CancelledError] and is not
    suppressed, and [cancel_tasks] is left before [heartbeat_task.cancel()].
    [merged] is over and [heartbeat] is still sleeping. *)
Theorem heartbeat_left_running (f1 f2 msg : string) :
  let source :=
    mkGen [Sleep 1; Produce f1; Sleep 1; Produce f2]
      (Some (GraphQLFailure msg)) in
  let final := exec heartbeat_frame 40 (start source [Next; Close]) in
  main final = MainDone (Raising (GraphQLFailure msg))
  /\ drain final = DrainDone (Failed (GraphQLFailure msg))
  /\ heartbeat final = HeartbeatSleeping
  /\ timers final = [(5, Heartbeat)]%nat
  /\ log final
     = [Pushed 0 Heartbeat (Data heartbeat_frame); Yielded 0 heartbeat_frame;
        Pushed 1 Drain (Data f1); Yielded 1 f1;
        SetCancelling; CancelCalled Drain;
        Awaited Drain (Failed (GraphQLFailure msg))].
Proof. vm_compute. auto 6. Qed.

(** The same consumer on a stream that lets the cancellation through: both
    tasks are cancelled and awaited, in this order. *)
Lemma teardown_on_close (f1 f2 : string) :
  let source := mkGen [Sleep 1; Produce f1; Sleep 1; Produce f2] None in
  let final := exec heartbeat_frame 40 (start source [Next; Close]) in
  main final = MainDone Closed
  /\ cancelling final = true
  /\ drain final = DrainDone Cancelled
  /\ heartbeat final = HeartbeatDone Cancelled
  /\ log final
     = [Pushed 0 Heartbeat (Data heartbeat_frame); Yielded 0 heartbeat_frame;
        Pushed 1 Drain (Data f1); Yielded 1 f1;
        SetCancelling; CancelCalled Drain; Awaited Drain Cancelled;
        CancelCalled Heartbeat; Awaited Heartbeat Cancelled].
Proof. vm_compute. auto 6. Qed.
End TeardownFacts.

Section DrainFailureFacts.
Import Mux.
Variable heartbeat_frame : string.

(** What [drain] does with an exception of the stream: not cancelling and
    room in the queue, the pair [(True, e)] is put and the task returns;
    not cancelling and the slot taken, the task waits to put that pair;
    cancelling, nothing is put and the task fails with the exception. *)
Lemma drain_raise_spec (e : exn) (st : state) :
  e <> CancelledError ->
  (cancelling st = false -> full st = false ->
   queue (drain_raise e st) = queue st ++ [Error e]
   /\ drain (drain_raise e st) = DrainDone Returned)
  /\ (cancelling st = false -> full st = true ->
      queue (drain_raise e st) = queue st
      /\ putters (drain_raise e st) = putters st ++ [Drain]
      /\ drain (drain_raise e st) = DrainPutting (Error e) true)
  /\ (cancelling st = true ->
      queue (drain_raise e st) = queue st
      /\ log (drain_raise e st) = log st
      /\ drain (drain_raise e st) = DrainDone (Failed e)).
Proof.
  intros He.
  assert (Hraise : drain_raise e st = drain_handler e st)
    by (destruct e; try reflexivity; contradiction).
  rewrite Hraise. clear Hraise. unfold drain_handler.
  destruct st as [now0 ready0 timers0 queue0 getters0 putters0 cancelling0
                  stream0 on_cancel0 drain0 dc0 hb0 hc0 main0 consumer0 log0].
  unfold full. cbn [cancelling queue putters log].
  split; [|split].
  - intros -> ->. unfold settle_drain, put_nowait, wakeup_next_getter.
    cbn. destruct getters0; cbn; destruct main0; split; reflexivity.
  - intros -> ->. cbn. repeat split; reflexivity.
  - intros ->. unfold settle_drain. cbn.
    destruct main0; repeat split; reflexivity.
Qed.

Lemma snoc10 {A} (l : list A) (a1 a2 a3 a4 a5 a6 a7 a8 a9 a10 : A) :
  l ++ [a1; a2; a3; a4; a5; a6; a7; a8; a9; a10]
  = (((((((((l ++ [a1]) ++ [a2]) ++ [a3]) ++ [a4]) ++ [a5]) ++ [a6]) ++ [a7])
        ++ [a8]) ++ [a9]) ++ [a10].
Proof. repeat rewrite <- app_assoc. reflexivity. Qed.

(** The consumer resumes in [queue.get()] with the pair [(True, e)] in the
    queue: within three turns of the loop [cancel_tasks] has run under
    [if raised] and again in [finally], both tasks are settled, and [merged]
    raises [e]. *)
Lemma error_pair_pulled (e : exn) (st : state) :
  ready st = [Main] ->
  main st = MainGetting ->
  queue st = [Error e] ->
  drain st = DrainDone Returned ->
  heartbeat_cancel st = NoRequest ->
  (heartbeat st = HeartbeatSleeping /\ putters st = [])
  \/ (heartbeat st = HeartbeatPutting /\ putters st = [Heartbeat]) ->
  let final := exec heartbeat_frame 3 st in
  main final = MainDone (Raising e)
  /\ heartbeat final = HeartbeatDone Cancelled
  /\ log final
     = log st ++ [SetCancelling; CancelCalled Drain; Awaited Drain Returned;
                  CancelCalled Heartbeat; Awaited Heartbeat Cancelled;
                  SetCancelling; CancelCalled Drain; Awaited Drain Returned;
                  CancelCalled Heartbeat; Awaited Heartbeat Cancelled].
Proof.
  intros Hready Hmain Hqueue Hdrain Hreq Hhb.
  destruct st as [now0 ready0 timers0 queue0 getters0 putters0 cancelling0
                  stream0 on_cancel0 drain0 dc0 hb0 hc0 main0 consumer0 log0].
  cbn in Hready, Hmain, Hqueue, Hdrain, Hreq, Hhb. subst.
  cbv zeta. cbn [log]. rewrite snoc10.
  destruct Hhb as [[-> ->]|[-> ->]]; vm_compute; auto.
Qed.

(** C5. [drain] fails with an exception [e]: when [cancelling] is not set
    the pair [(True, e)] goes into the queue (at once if there is room,
    else as soon as the task gets its turn to put), and the consumer that
    pulls it runs [cancel_tasks] and then raises [e] out of [merged]; when
    [cancelling] is set nothing is put and [drain] itself fails with
    [e]. *)
Theorem drain_failure_paths (e : exn) (producer consumer_side : state) :
  e <> CancelledError ->
  ready consumer_side = [Main] ->
  main consumer_side = MainGetting ->
  queue consumer_side = [Error e] ->
  drain consumer_side = DrainDone Returned ->
  heartbeat_cancel consumer_side = NoRequest ->
  (heartbeat consumer_side = HeartbeatSleeping /\ putters consumer_side = [])
  \/ (heartbeat consumer_side = HeartbeatPutting
      /\ putters consumer_side = [Heartbeat]) ->
  raised (Error e) = true
  /\ (cancelling producer = false -> full producer = false ->
      queue (drain_raise e producer) = queue producer ++ [Error e]
      /\ drain (drain_raise e producer) = DrainDone Returned)
  /\ (cancelling producer = false -> full producer = true ->
      queue (drain_raise e producer) = queue producer
      /\ putters (drain_raise e producer) = putters producer ++ [Drain]
      /\ drain (drain_raise e producer) = DrainPutting (Error e) true)
  /\ (cancelling producer = true ->
      queue (drain_raise e producer) = queue producer
      /\ log (drain_raise e producer) = log producer
      /\ drain (drain_raise e producer) = DrainDone (Failed e))
  /\ (let final := exec heartbeat_frame 3 consumer_side in
      main final = MainDone (Raising e)
      /\ heartbeat final = HeartbeatDone Cancelled
      /\ log final
         = log consumer_side
           ++ [SetCancelling; CancelCalled Drain; Awaited Drain Returned;
               CancelCalled Heartbeat; Awaited Heartbeat Cancelled;
               SetCancelling; CancelCalled Drain; Awaited Drain Returned;
               CancelCalled Heartbeat; Awaited Heartbeat Cancelled]).
Proof.
  intros He Hready Hmain Hqueue Hdrain Hreq Hhb.
  destruct (drain_raise_spec e producer He) as (Hput & Hwait & Hfail).
  split; [reflexivity|].
  split; [exact Hput|split; [exact Hwait|split; [exact Hfail|]]].
  exact (error_pair_pulled e consumer_side Hready Hmain Hqueue Hdrain Hreq Hhb).
Qed.
End DrainFailureFacts.

Lemma drain_failure_paths_witness :
  let boom := GraphQLFailure "boom" in
  let pulling :=
    Mux.exec "hb" 6 (Mux.start (mkGen [Sleep 1; Fail boom] None) []) in
  Mux.queue pulling = [Mux.Error boom]
  /\ Mux.main (Mux.exec "hb" 3 pulling) = Mux.MainDone (Mux.Raising boom).
Proof.
  intros boom pulling. split; [reflexivity|].
  apply (drain_failure_paths "hb" boom pulling pulling);
    first [ discriminate | (vm_compute; auto) ].
Defined.

(** * How failures of the parser leave [run] *)

Section RunFacts.
Context {Context RootValue : Type}.
Context `{!Schema Context RootValue} `{!ViewOps Context RootValue}.

(** The two handlers that a failure of the parser meets on its way out,
    once [assert context] has passed: the one in [execute_operation], then
    the one in [run]. *)
Lemma run_parse_failure (request : AsyncHTTPRequestAdapter) (e : exn) :
  is_request_allowed request = true ->
  should_render_graphql_ide request = false ->
  truthy (get_context request) = true ->
  parse_http_body request = Raise e ->
  run request
  = Raise match e with
          | JSONDecodeError =>
              HTTPException 400 "Unable to parse request body as JSON"
          | KeyError _ => HTTPException 400 "File(s) missing in form data"
          | InvalidOperationTypeError kind =>
              HTTPException 400 (as_http_error_reason kind (method request))
          | MissingQueryError =>
              HTTPException 400 "No GraphQL query found in the request"
          | _ => e
          end.
Proof.
  intros Hallowed Hide Hcontext Hparse.
  unfold run. rewrite Hallowed, Hide, Hcontext. cbn.
  unfold execute_operation. rewrite Hparse.
  destruct e; reflexivity.
Qed.

(** A context that is not truthy: [assert context] fails before anything
    of the request is parsed. *)
Lemma run_falsy_context (request : AsyncHTTPRequestAdapter) :
  is_request_allowed request = true ->
  should_render_graphql_ide request = false ->
  truthy (get_context request) = false ->
  run request = Raise AssertionError.
Proof.
  intros Hallowed Hide Hcontext.
  unfold run. rewrite Hallowed, Hide, Hcontext. reflexivity.
Qed.

(** X1. A request other than GET with [application/json] in its content
    type whose body is no JSON text, and a context that passes [assert
    context]: [run] raises [HTTPException 400 "Unable to parse request body
    as JSON"], whether the host's [parse_json] lets the [JSONDecodeError]
    out, which [execute_operation] then turns into this exception, or
    raises this exception itself. *)
Theorem run_unparseable_json_body (request : AsyncHTTPRequestAdapter)
  (body : string) :
  is_request_allowed request = true ->
  should_render_graphql_ide request = false ->
  truthy (get_context request) = true ->
  method request <> "GET" ->
  str_contains "application/json"
    (parse_content_type (default EmptyString (content_type request))).1
  = true ->
  get_body request = Ok body ->
  parse_json body = Raise JSONDecodeError
  \/ parse_json body
     = Raise (HTTPException 400 "Unable to parse request body as JSON") ->
  run request
  = Raise (HTTPException 400 "Unable to parse request body as JSON").
Proof.
  intros Hallowed Hide Hcontext Hm Hjson Hbody Hparse.
  assert (Hfail : forall e,
            parse_json body = Raise e -> parse_http_body request = Raise e).
  { intros e He. unfold parse_http_body.
    destruct (parse_content_type _) as [mime params]. cbn in Hjson.
    destruct (String.eqb_spec (method request) "GET") as [Heq|_]; [done|].
    rewrite Hjson. cbn. rewrite Hbody. cbn. rewrite He. reflexivity. }
  destruct Hparse as [Hparse|Hparse];
    rewrite (run_parse_failure request _ Hallowed Hide Hcontext
               (Hfail _ Hparse));
    reflexivity.
Qed.

(** X2. A [multipart/form-data] request other than GET whose form the
    framework cannot read ([get_form_data] raises [ValueError]), and a
    context that passes [assert context]: [run] raises [HTTPException 400
    "Unable to parse the multipart body"]. *)
Theorem run_unparseable_multipart_body (request : AsyncHTTPRequestAdapter)
  (msg : string) :
  is_request_allowed request = true ->
  should_render_graphql_ide request = false ->
  truthy (get_context request) = true ->
  method request <> "GET" ->
  (parse_content_type (default EmptyString (content_type request))).1
  = "multipart/form-data" ->
  get_form_data request = Raise (ValueError msg) ->
  run request
  = Raise (HTTPException 400 "Unable to parse the multipart body").
Proof.
  intros Hallowed Hide Hcontext Hm Hmime Hform.
  rewrite (run_parse_failure request
             (HTTPException 400 "Unable to parse the multipart body")
             Hallowed Hide Hcontext); [reflexivity|].
  unfold parse_http_body.
  destruct (parse_content_type _) as [mime params]. cbn in Hmime. subst mime.
  destruct (String.eqb_spec (method request) "GET") as [Heq|_]; [done|].
  change (str_contains "application/json" "multipart/form-data") with false.
  cbn. unfold parse_multipart. rewrite Hform. reflexivity.
Qed.

(** X3. A JSON body that decodes to something other than an object (an
    array, a string, a number, [null]): [data.get] raises
    [AttributeError], which neither [execute_operation] nor [run] handles,
    so that [run], once [assert context] has passed, raises it and no
    [HTTPException]. *)
Theorem run_non_object_body (request : AsyncHTTPRequestAdapter)
  (body : string) (decoded : value) :
  is_request_allowed request = true ->
  should_render_graphql_ide request = false ->
  truthy (get_context request) = true ->
  method request <> "GET" ->
  str_contains "application/json"
    (parse_content_type (default EmptyString (content_type request))).1
  = true ->
  get_body request = Ok body ->
  parse_json body = Ok decoded ->
  (forall fields, decoded <> VDict fields) ->
  parse_http_body request = Raise AttributeError
  /\ run request = Raise AttributeError.
Proof.
  intros Hallowed Hide Hcontext Hm Hjson Hbody Hparse Hshape.
  assert (Hfail : parse_http_body request = Raise AttributeError).
  { unfold parse_http_body.
    destruct (parse_content_type _) as [mime params]. cbn in Hjson.
    destruct (String.eqb_spec (method request) "GET") as [Heq|_]; [done|].
    rewrite Hjson. cbn. rewrite Hbody. cbn. rewrite Hparse. cbn.
    unfold request_data_of.
    destruct decoded; try reflexivity. now destruct (Hshape d). }
  split; [exact Hfail|].
  rewrite (run_parse_failure request AttributeError Hallowed Hide Hcontext
             Hfail).
  reflexivity.
Qed.

(** X4. A GET request is parsed from its query parameters alone: whatever
    its body and its form data are, read or unreadable, the parser's
    outcome is the same. *)
Theorem get_request_ignores_body (request : AsyncHTTPRequestAdapter)
  (body : result string) (form_data : result FormData) :
  method request = "GET" ->
  parse_http_body
    (mkAdapter (query_params request) (method request) (headers request)
       (content_type request) body form_data)
  = parse_http_body request.
Proof.
  intros Hm. unfold parse_http_body. cbn [method content_type query_params].
  destruct (parse_content_type _) as [mime params].
  rewrite Hm. reflexivity.
Qed.

(** X5. A view that keeps [create_streaming_response] of the base class
    cannot serve a subscription: once [assert context] has passed and the
    operation has given a stream of results, [run] raises [ValueError
    "Multipart responses are not supported"]. *)
Theorem run_streaming_not_overridden (request : AsyncHTTPRequestAdapter)
  (results : SubscriptionExecutionResult) :
  (forall stream headers,
     create_streaming_response stream headers
     = AsyncBaseHTTPView.create_streaming_response stream headers) ->
  is_request_allowed request = true ->
  should_render_graphql_ide request = false ->
  truthy (get_context request) = true ->
  execute_operation request (get_context request) (get_root_value request)
  = Ok (Subscription results) ->
  run request = Raise (ValueError "Multipart responses are not supported").
Proof.
  intros Hbase Hallowed Hide Hcontext Hexec.
  unfold run. rewrite Hallowed, Hide, Hcontext. cbn. rewrite Hexec. cbn.
  rewrite Hbase. reflexivity.
Qed.
End RunFacts.

Lemma run_unparseable_json_body_witness :
  @run _ _ Sample.schema (Sample.view true)
    (Sample.post_request "application/json" "{ hello")
  = Raise (HTTPException 400 "Unable to parse request body as JSON").
Proof.
  apply (@run_unparseable_json_body _ _ Sample.schema (Sample.view true)
           (Sample.post_request "application/json" "{ hello") "{ hello");
    first [ discriminate | (vm_compute; reflexivity)
          | (left; vm_compute; reflexivity) ].
Defined.

Lemma run_unparseable_multipart_body_witness :
  @run _ _ Sample.schema (Sample.view true)
    (Sample.post_request "multipart/form-data" EmptyString)
  = Raise (HTTPException 400 "Unable to parse the multipart body").
Proof.
  apply (@run_unparseable_multipart_body _ _ Sample.schema (Sample.view true)
           (Sample.post_request "multipart/form-data" EmptyString)
           "no form data");
    first [ discriminate | (vm_compute; reflexivity) ].
Defined.

Lemma run_non_object_body_witness :
  @parse_http_body _ _ Plain.view (Sample.post_request "application/json" "[]")
  = Raise AttributeError
  /\ @run _ _ Sample.schema Plain.view
       (Sample.post_request "application/json" "[]")
     = Raise AttributeError.
Proof.
  apply (@run_non_object_body _ _ Sample.schema Plain.view
           (Sample.post_request "application/json" "[]") "[]" (VList []));
    first [ discriminate | (vm_compute; reflexivity) | (intros; discriminate) ].
Defined.

Lemma get_request_ignores_body_witness :
  @parse_http_body _ _ (Sample.view true)
    (mkAdapter {["query" := Sample.hello_query]} "GET" ∅ None
       (Raise (ValueError "connection lost")) (Ok (mkFormData ∅ ∅)))
  = @parse_http_body _ _ (Sample.view true)
      (Sample.get_request None Sample.hello_query).
Proof.
  apply (@get_request_ignores_body _ _ (Sample.view true)
           (Sample.get_request None Sample.hello_query)
           (Raise (ValueError "connection lost")) (Ok (mkFormData ∅ ∅))).
  reflexivity.
Defined.

Lemma run_streaming_not_overridden_witness :
  @run _ _ Sample.schema Plain.view
    (Sample.get_request (Some Sample.subscription_content_type)
       Sample.subscription_query)
  = Raise (ValueError "Multipart responses are not supported").
Proof.
  apply (@run_streaming_not_overridden _ _ Sample.schema Plain.view
           (Sample.get_request (Some Sample.subscription_content_type)
              Sample.subscription_query)
           (mkGen [Sleep 1%nat; Produce Sample.hello_world] None));
    first [ (intros; reflexivity) | (vm_compute; reflexivity) ].
Defined.

(** * The stream of a subscription, read back *)

Lemma strip_prefix_app_l (p q s : string) :
  strip_prefix (p +:+ q) (p +:+ s) = strip_prefix q s.
Proof.
  induction p as [|a p IH]; [reflexivity|].
  rewrite !string_app_cons. cbn -[Ascii.eqb].
  rewrite Ascii.eqb_refl. exact IH.
Qed.

Lemma body_of_app (l1 l2 : list string) :
  body_of (l1 ++ l2) = body_of l1 +:+ body_of l2.
Proof.
  induction l1 as [|s l1 IH]; [reflexivity|].
  cbn [app body_of foldr]. fold (body_of (l1 ++ l2)). fold (body_of l1).
  rewrite IH, string_app_assoc. reflexivity.
Qed.

Section StreamFacts.
Context {Context RootValue : Type}.
Context `{!ViewOps Context RootValue}.

(** A part is not taken for the closing boundary, and is read back whole
    when a delimiter follows it. *)
Lemma read_part_encoded (payload : value) (separator rest : string) :
  free_of CR (encode_json payload) = true ->
  strip_prefix (delimiter separator +:+ "--" +:+ CRLF)
    (encode_multipart_data payload separator +:+ delimiter separator +:+ rest)
  = None
  /\ read_part separator
       (encode_multipart_data payload separator +:+ delimiter separator
        +:+ rest)
     = Some (encode_json payload +:+ LF, delimiter separator +:+ rest).
Proof.
  intros Hfree. unfold read_part, encode_multipart_data.
  rewrite !string_app_assoc.
  change (CRLF +:+ "--" +:+ separator +:+ CRLF +:+ ?x)
    with (delimiter separator +:+ (CRLF +:+ x)).
  split.
  - rewrite strip_prefix_app_l. reflexivity.
  - rewrite <- (string_app_assoc (delimiter separator) CRLF).
    rewrite strip_prefix_app.
    change ("Content-Type: application/json" +:+ CRLF +:+ CRLF +:+ ?x)
      with (part_header +:+ x).
    rewrite strip_prefix_app.
    rewrite <- (string_app_assoc (encode_json payload) LF).
    change (delimiter separator)
      with (String CR (String "010" ("--" +:+ separator))).
    rewrite split_at_delimiter_free; [reflexivity|].
    rewrite free_of_app, Hfree. reflexivity.
Qed.

(** What the generator of [_get_stream] yields when the results raise
    nothing: one part for each result, then the closing boundary. *)
Lemma produced_stream_of (results : SubscriptionExecutionResult)
  (separator : string) :
  forallb MuxSource.unfailing (steps results) = true ->
  produced (steps (stream_of results separator))
  = map (fun r =>
           encode_multipart_data (VDict [("payload", process_result r)])
             separator)
      (produced (steps results))
    ++ [closing_frame separator].
Proof.
  unfold stream_of. cbn [steps].
  induction (steps results) as [|s script IH]; [reflexivity|].
  cbn [forallb]. intros Hu. apply andb_true_iff in Hu as [Hs Hu].
  destruct s as [d|r|e]; [| |discriminate Hs];
    cbn [map app encode_step produced]; rewrite (IH Hu); reflexivity.
Qed.

(** Whatever parts come first, the body starts with a delimiter. *)
Lemma body_starts_with_delimiter (payloads : list value)
  (separator : string) :
  exists rest,
    body_of (map (fun p => encode_multipart_data p separator) payloads
             ++ [closing_frame separator])
    = delimiter separator +:+ rest.
Proof.
  destruct payloads as [|p payloads].
  - exists ("--" +:+ CRLF). cbn [map app body_of foldr].
    unfold closing_frame, delimiter. rewrite !string_app_assoc.
    reflexivity.
  - eexists. cbn [map app body_of foldr]. unfold encode_multipart_data.
    rewrite !string_app_assoc.
    change (CRLF +:+ "--" +:+ separator +:+ CRLF +:+ ?x)
      with (delimiter separator +:+ (CRLF +:+ x)).
    reflexivity.
Qed.

Lemma read_parts_encoded (payloads : list value) (separator : string) :
  Forall (fun p => free_of CR (encode_json p) = true) payloads ->
  read_parts separator (S (length payloads))
    (body_of (map (fun p => encode_multipart_data p separator) payloads
              ++ [closing_frame separator]))
  = Some (map (fun p => encode_json p +:+ LF) payloads).
Proof.
  induction 1 as [|p payloads Hp _ IH].
  - cbn [map app body_of foldr length read_parts].
    assert (Hclose : closing_frame separator +:+ EmptyString
                     = (delimiter separator +:+ "--" +:+ CRLF)
                       +:+ EmptyString).
    { unfold closing_frame, delimiter. rewrite !string_app_assoc.
      reflexivity. }
    rewrite Hclose, strip_prefix_app. reflexivity.
  - destruct (body_starts_with_delimiter payloads separator) as [rest Hrest].
    change (read_parts separator (S (length (p :: payloads))) ?b)
      with (match strip_prefix (delimiter separator +:+ "--" +:+ CRLF) b with
            | Some _ => Some []
            | None =>
                match read_part separator b with
                | Some (payload, rest) =>
                    match read_parts separator (S (length payloads)) rest with
                    | Some payloads => Some (payload :: payloads)
                    | None => None
                    end
                | None => None
                end
            end).
    cbn [map app body_of foldr].
    fold (body_of (map (fun p => encode_multipart_data p separator) payloads
                   ++ [closing_frame separator])).
    rewrite Hrest.
    destruct (read_part_encoded p separator rest Hp) as [Hnot Hread].
    rewrite Hnot, Hread, <- Hrest, IH. reflexivity.
Qed.

(** X6. The frames that the generator of [_get_stream] yields for a
    subscription whose results raise nothing, put end to end, are a
    multipart body that reads back as one part per result, in the order of
    the results, each part the JSON text of [{"payload": ...}] with its
    line feed, and then the closing boundary; this for every separator.
    The JSON encoder is the host's; its texts must have no carriage return,
    as JSON text has none. *)
Theorem stream_round_trip (results : SubscriptionExecutionResult)
  (separator : string) :
  forallb MuxSource.unfailing (steps results) = true ->
  Forall (fun r =>
            free_of CR (encode_json (VDict [("payload", process_result r)]))
            = true)
    (produced (steps results)) ->
  read_parts separator (S (length (produced (steps results))))
    (body_of (produced (steps (stream_of results separator))))
  = Some (map (fun r =>
                 encode_json (VDict [("payload", process_result r)]) +:+ LF)
            (produced (steps results))).
Proof.
  intros Hu Hfree. rewrite (produced_stream_of results separator Hu).
  pose proof (read_parts_encoded
                (map (fun r => VDict [("payload", process_result r)])
                   (produced (steps results))) separator) as Hread.
  rewrite length_map, !map_map in Hread. apply Hread.
  apply Forall_map. exact Hfree.
Qed.
End StreamFacts.

Lemma stream_round_trip_witness :
  let results :=
    mkGen [Sleep 1%nat; Produce Sample.hello_world; Sleep 2%nat;
           Produce (mkResult (VStr "--frontier") [])] None in
  read_parts "frontier" 3
    (body_of (produced (steps (@stream_of _ _ (Sample.view true) results
                                 "frontier"))))
  = Some [Sample.dumps
            (VDict [("payload", VDict [("data", VDict [("hello", VStr "world")])])])
          +:+ LF;
          Sample.dumps (VDict [("payload", VDict [("data", VStr "--frontier")])])
          +:+ LF].
Proof.
  intros results.
  apply (@stream_round_trip _ _ (Sample.view true) results "frontier");
    [reflexivity|repeat constructor].
Defined.

Local Open Scope nat_scope.

(** * The queue never holds more than one item *)

Section QueueFacts.
Import Mux.

Lemma queue_suspend_for d t st : queue (suspend_for d t st) = queue st.
Proof. destruct d; reflexivity. Qed.

Lemma queue_wakeup_next_getter st : queue (wakeup_next_getter st) = queue st.
Proof. unfold wakeup_next_getter. destruct (getters st); reflexivity. Qed.

Lemma queue_wakeup_next_putter st : queue (wakeup_next_putter st) = queue st.
Proof. unfold wakeup_next_putter. destruct (putters st); reflexivity. Qed.

Lemma queue_put_nowait who it st :
  queue (put_nowait who it st) = queue st ++ [it].
Proof. unfold put_nowait. rewrite queue_wakeup_next_getter. reflexivity. Qed.

Lemma queue_settle_drain r st : queue (settle_drain r st) = queue st.
Proof. unfold settle_drain. cbn. destruct (main st); reflexivity. Qed.

Lemma queue_settle_heartbeat r st : queue (settle_heartbeat r st) = queue st.
Proof. unfold settle_heartbeat. cbn. destruct (main st); reflexivity. Qed.

Lemma queue_cancel_drain st : queue (cancel_drain st) = queue st.
Proof.
  unfold cancel_drain, request_cancel.
  destruct (drain st); try reflexivity; destruct (decide _); reflexivity.
Qed.

Lemma queue_cancel_heartbeat st : queue (cancel_heartbeat st) = queue st.
Proof.
  unfold cancel_heartbeat, request_cancel.
  destruct (heartbeat st); try reflexivity; destruct (decide _); reflexivity.
Qed.

Lemma queue_abandon_put c st : queue (abandon_put c st) = queue st.
Proof.
  destruct c; try reflexivity. unfold abandon_put.
  destruct (full st); [reflexivity|apply queue_wakeup_next_putter].
Qed.

Lemma put_nowait_room who it st :
  full st = false -> length (queue (put_nowait who it st)) <= maxsize.
Proof.
  unfold full. intros Hroom. apply Nat.leb_gt in Hroom.
  rewrite queue_put_nowait, length_app. cbn. unfold maxsize in *. lia.
Qed.

Lemma drain_raise_bounded e st :
  length (queue st) <= maxsize ->
  length (queue (drain_raise e st)) <= maxsize.
Proof.
  intros Hb.
  assert (Hh : length (queue (drain_handler e st)) <= maxsize).
  { unfold drain_handler. destruct (cancelling st).
    - now rewrite queue_settle_drain.
    - destruct (full st) eqn:Hfull; [exact Hb|].
      rewrite queue_settle_drain. now apply put_nowait_room. }
  destruct e; try exact Hh. cbn. now rewrite queue_settle_drain.
Qed.

Lemma drain_iterate_bounded rest st :
  length (queue st) <= maxsize ->
  length (queue (drain_iterate rest st)) <= maxsize.
Proof.
  revert st. induction rest as [|s rest IH]; intros st Hb.
  - cbn. now rewrite queue_settle_drain.
  - destruct s as [d|frame|e]; cbn [drain_iterate].
    + now rewrite queue_suspend_for.
    + destruct (full st) eqn:Hfull; [exact Hb|].
      apply IH. now apply put_nowait_room.
    + now apply drain_raise_bounded.
Qed.

Lemma run_drain_bounded st :
  length (queue st) <= maxsize -> length (queue (run_drain st)) <= maxsize.
Proof.
  intros Hb. unfold run_drain.
  assert (Hcancelled : forall c,
            length (queue (drain_cancelled c (set_drain_cancel NoRequest st)))
            <= maxsize).
  { intros c. unfold drain_cancelled. cbn [drain set_drain_cancel stream_on_cancel].
    destruct (drain st); rewrite ?queue_settle_drain, ?queue_abandon_put;
      try exact Hb.
    destruct (stream_on_cancel st);
      [now apply drain_raise_bounded|now rewrite queue_settle_drain]. }
  destruct (drain_cancel st); try apply Hcancelled.
  unfold drain_continue.
  destruct (drain st); try exact Hb; try now apply drain_iterate_bounded.
  destruct (full st) eqn:Hfull; [exact Hb|].
  pose proof (put_nowait_room Drain it st Hfull) as Hput.
  destruct in_handler;
    [now rewrite queue_settle_drain|now apply drain_iterate_bounded].
Qed.

Lemma run_heartbeat_bounded hb st :
  length (queue st) <= maxsize ->
  length (queue (run_heartbeat hb st)) <= maxsize.
Proof.
  intros Hb. unfold run_heartbeat.
  assert (Hcancelled : forall c,
            length (queue (heartbeat_cancelled c
                             (set_heartbeat_cancel NoRequest st)))
            <= maxsize).
  { intros c. unfold heartbeat_cancelled. cbn [heartbeat set_heartbeat_cancel].
    destruct (heartbeat st);
      rewrite ?queue_settle_heartbeat, ?queue_abandon_put; exact Hb. }
  destruct (heartbeat_cancel st); try apply Hcancelled.
  unfold heartbeat_continue, heartbeat_turn.
  destruct (heartbeat st); try exact Hb;
    (destruct (full st) eqn:Hfull; [exact Hb|];
     rewrite queue_suspend_for; now apply put_nowait_room).
Qed.

(** [cancel_tasks] and what follows it leave the queue alone. *)
Lemma queue_heartbeat_awaited ret exc r st :
  (forall s, queue (ret s) = queue s) ->
  (forall e s, queue (exc e s) = queue s) ->
  queue (heartbeat_awaited ret exc r st) = queue st.
Proof.
  intros Hret Hexc. unfold heartbeat_awaited.
  destruct r; rewrite ?Hret, ?Hexc; reflexivity.
Qed.

Lemma queue_drain_awaited first why ret exc r st :
  (forall s, queue (ret s) = queue s) ->
  (forall e s, queue (exc e s) = queue s) ->
  queue (drain_awaited first why ret exc r st) = queue st.
Proof.
  intros Hret Hexc. unfold drain_awaited.
  destruct r; rewrite ?Hexc; try reflexivity;
    (destruct (heartbeat _);
     rewrite ?queue_heartbeat_awaited by assumption;
     cbn; rewrite queue_cancel_heartbeat; reflexivity).
Qed.

Lemma queue_cancel_tasks first why ret exc st :
  (forall s, queue (ret s) = queue s) ->
  (forall e s, queue (exc e s) = queue s) ->
  queue (cancel_tasks first why ret exc st) = queue st.
Proof.
  intros Hret Hexc. unfold cancel_tasks.
  destruct (drain _); rewrite ?queue_drain_awaited by assumption;
    cbn; rewrite queue_cancel_drain; reflexivity.
Qed.

Lemma queue_finally why st : queue (finally why st) = queue st.
Proof. apply queue_cancel_tasks; reflexivity. Qed.

Lemma queue_ret_of first why st : queue (ret_of first why st) = queue st.
Proof. destruct first; [apply queue_finally|reflexivity]. Qed.

Lemma queue_exc_of first e st : queue (exc_of first e st) = queue st.
Proof. destruct first; [apply queue_finally|reflexivity]. Qed.

Lemma merged_loop_bounded check q st :
  queue st = q ->
  length (queue (merged_loop check q st)) <= length q.
Proof.
  revert check st. induction q as [|it q IH]; intros check st Hq.
  - cbn [merged_loop]. destruct (check && _);
      [rewrite queue_finally|cbn]; rewrite Hq; reflexivity.
  - cbn [merged_loop]. destruct (check && _).
    { rewrite queue_finally, Hq. cbn. lia. }
    destruct it as [frame|e].
    + cbn [length]. 
      assert (Hrest : forall c s, queue s = q ->
                length (queue (merged_loop c q s)) <= S (length q))
        by (intros c s Hs; specialize (IH c s Hs); lia).
      destruct (consumer _) as [|[|d|] rest].
      * apply Hrest. cbn. apply queue_wakeup_next_putter.
      * apply Hrest. cbn. apply queue_wakeup_next_putter.
      * rewrite queue_suspend_for. cbn. rewrite queue_wakeup_next_putter.
        cbn. lia.
      * rewrite queue_finally. cbn. rewrite queue_wakeup_next_putter.
        cbn. lia.
    + rewrite queue_cancel_tasks
        by (intros; first [apply queue_ret_of|apply queue_exc_of]).
      rewrite queue_wakeup_next_putter. cbn. lia.
Qed.

Lemma run_main_bounded st :
  length (queue st) <= maxsize -> length (queue (run_main st)) <= maxsize.
Proof.
  intros Hb. unfold run_main.
  destruct (main st) as [| | |first why|first why|why]; try exact Hb.
  - etransitivity; [apply merged_loop_bounded; reflexivity|exact Hb].
  - etransitivity; [apply merged_loop_bounded; reflexivity|exact Hb].
  - etransitivity; [apply merged_loop_bounded; reflexivity|exact Hb].
  - destruct (drain st); try exact Hb.
    rewrite queue_drain_awaited
      by (intros; first [apply queue_ret_of|apply queue_exc_of]).
    exact Hb.
  - destruct (heartbeat st); try exact Hb.
    rewrite queue_heartbeat_awaited
      by (intros; first [apply queue_ret_of|apply queue_exc_of]).
    exact Hb.
Qed.



End QueueFacts.

(** * What the coroutines leave alone *)

Section Frame.
Import Mux.
Context {A : Type} (f : state -> A).
Hypothesis f_now : forall v st, f (set_now v st) = f st.
Hypothesis f_ready : forall v st, f (set_ready v st) = f st.
Hypothesis f_timers : forall v st, f (set_timers v st) = f st.
Hypothesis f_queue : forall v st, f (set_queue v st) = f st.
Hypothesis f_getters : forall v st, f (set_getters v st) = f st.
Hypothesis f_putters : forall v st, f (set_putters v st) = f st.
Hypothesis f_cancelling : forall v st, f (set_cancelling v st) = f st.
Hypothesis f_stream : forall v st, f (set_stream v st) = f st.
Hypothesis f_drain_cancel : forall v st, f (set_drain_cancel v st) = f st.
Hypothesis f_heartbeat_cancel :
  forall v st, f (set_heartbeat_cancel v st) = f st.
Hypothesis f_consumer : forall v st, f (set_consumer v st) = f st.
Hypothesis f_log : forall v st, f (set_log v st) = f st.

Lemma frame_emit e st : f (emit e st) = f st.
Proof. apply f_log. Qed.

Lemma frame_schedule t st : f (schedule t st) = f st.
Proof. apply f_ready. Qed.

Lemma frame_suspend_for d t st : f (suspend_for d t st) = f st.
Proof. destruct d; [apply f_ready|apply f_timers]. Qed.

Lemma frame_wakeup_next_getter st : f (wakeup_next_getter st) = f st.
Proof.
  unfold wakeup_next_getter. destruct (getters st); [reflexivity|].
  now rewrite frame_schedule, f_getters.
Qed.

Lemma frame_wakeup_next_putter st : f (wakeup_next_putter st) = f st.
Proof.
  unfold wakeup_next_putter. destruct (putters st); [reflexivity|].
  now rewrite frame_schedule, f_putters.
Qed.

Lemma frame_put_nowait who it st : f (put_nowait who it st) = f st.
Proof.
  unfold put_nowait. now rewrite frame_wakeup_next_getter, frame_emit, f_queue.
Qed.

Lemma frame_wait_to_put who st : f (wait_to_put who st) = f st.
Proof. apply f_putters. Qed.

Lemma frame_unschedule t st : f (unschedule t st) = f st.
Proof. unfold unschedule. now rewrite f_timers, f_putters. Qed.

Lemma frame_cancel_drain st : f (cancel_drain st) = f st.
Proof.
  unfold cancel_drain, request_cancel.
  destruct (drain st); try reflexivity; destruct (decide _);
    rewrite f_drain_cancel, ?frame_schedule, ?frame_unschedule; reflexivity.
Qed.

Lemma frame_cancel_heartbeat st : f (cancel_heartbeat st) = f st.
Proof.
  unfold cancel_heartbeat, request_cancel.
  destruct (heartbeat st); try reflexivity; destruct (decide _);
    rewrite f_heartbeat_cancel, ?frame_schedule, ?frame_unschedule;
    reflexivity.
Qed.

Lemma frame_abandon_put c st : f (abandon_put c st) = f st.
Proof.
  destruct c; try reflexivity. unfold abandon_put.
  destruct (full st); [reflexivity|apply frame_wakeup_next_putter].
Qed.

Lemma frame_fire_timers st st' : fire_timers st = Some st' -> f st' = f st.
Proof.
  unfold fire_timers. destruct (earliest _); intros [= <-].
  now rewrite f_ready, f_timers, f_now.
Qed.

Section OfDrain.
Hypothesis f_drain : forall v st, f (set_drain v st) = f st.

Lemma frame_settle_drain r st : f (settle_drain r st) = f st.
Proof.
  unfold settle_drain. cbv zeta.
  destruct (main _); rewrite ?frame_schedule, f_drain; reflexivity.
Qed.

Lemma frame_drain_raise e st : f (drain_raise e st) = f st.
Proof.
  assert (Hh : f (drain_handler e st) = f st).
  { unfold drain_handler. destruct (cancelling st).
    - apply frame_settle_drain.
    - destruct (full st).
      + now rewrite f_drain, frame_wait_to_put.
      + now rewrite frame_settle_drain, frame_put_nowait. }
  destruct e; try exact Hh. apply frame_settle_drain.
Qed.

Lemma frame_drain_iterate rest st : f (drain_iterate rest st) = f st.
Proof.
  revert st. induction rest as [|s rest IH]; intros st.
  - cbn. now rewrite frame_settle_drain, f_stream.
  - destruct s as [d|frame|e]; cbn [drain_iterate].
    + now rewrite frame_suspend_for, f_drain, f_stream.
    + destruct (full st).
      * now rewrite f_drain, frame_wait_to_put, f_stream.
      * now rewrite IH, frame_put_nowait.
    + now rewrite frame_drain_raise, f_stream.
Qed.

Lemma frame_run_drain st : f (run_drain st) = f st.
Proof.
  unfold run_drain.
  assert (Hcancelled : forall c,
            f (drain_cancelled c (set_drain_cancel NoRequest st)) = f st).
  { intros c. unfold drain_cancelled.
    destruct (drain _);
      [| destruct (stream_on_cancel _) | |];
      rewrite ?frame_drain_raise, ?frame_settle_drain, ?frame_abandon_put;
      apply f_drain_cancel. }
  destruct (drain_cancel st); try apply Hcancelled.
  unfold drain_continue.
  destruct (drain st); try reflexivity; try apply frame_drain_iterate.
  destruct (full st); [apply frame_wait_to_put|].
  destruct in_handler;
    rewrite ?frame_settle_drain, ?frame_drain_iterate;
    apply frame_put_nowait.
Qed.
End OfDrain.

Section OfHeartbeat.
Hypothesis f_heartbeat : forall v st, f (set_heartbeat v st) = f st.

Lemma frame_settle_heartbeat r st : f (settle_heartbeat r st) = f st.
Proof.
  unfold settle_heartbeat. cbv zeta.
  destruct (main _); rewrite ?frame_schedule, f_heartbeat; reflexivity.
Qed.

Lemma frame_run_heartbeat hb st : f (run_heartbeat hb st) = f st.
Proof.
  unfold run_heartbeat.
  assert (Hcancelled : forall c,
            f (heartbeat_cancelled c (set_heartbeat_cancel NoRequest st))
            = f st).
  { intros c. unfold heartbeat_cancelled.
    destruct (heartbeat _);
      rewrite ?frame_settle_heartbeat, ?frame_abandon_put;
      apply f_heartbeat_cancel. }
  destruct (heartbeat_cancel st); try apply Hcancelled.
  unfold heartbeat_continue, heartbeat_turn.
  destruct (heartbeat st); try reflexivity;
    (destruct (full st);
     [now rewrite f_heartbeat, frame_wait_to_put
     |now rewrite frame_suspend_for, f_heartbeat, frame_put_nowait]).
Qed.
End OfHeartbeat.

Section OfMain.
Hypothesis f_main : forall v st, f (set_main v st) = f st.
(** Of the log, only the puts may matter. *)
Hypothesis f_emit :
  forall e st,
    match e with Pushed _ _ _ => False | _ => True end ->
    f (emit e st) = f st.

Lemma frame_heartbeat_awaited ret exc r st :
  (forall s, f (ret s) = f s) -> (forall e s, f (exc e s) = f s) ->
  f (heartbeat_awaited ret exc r st) = f st.
Proof.
  intros Hret Hexc. unfold heartbeat_awaited.
  destruct r; rewrite ?Hret, ?Hexc; now apply f_emit.
Qed.

Lemma frame_drain_awaited first why ret exc r st :
  (forall s, f (ret s) = f s) -> (forall e s, f (exc e s) = f s) ->
  f (drain_awaited first why ret exc r st) = f st.
Proof.
  intros Hret Hexc. unfold drain_awaited. cbv zeta.
  destruct r; rewrite ?Hexc; try (now apply f_emit);
    (destruct (heartbeat _);
     rewrite ?frame_heartbeat_awaited, ?f_main by assumption;
     rewrite f_emit by exact I; rewrite frame_cancel_heartbeat;
     now apply f_emit).
Qed.

Lemma frame_cancel_tasks first why ret exc st :
  (forall s, f (ret s) = f s) -> (forall e s, f (exc e s) = f s) ->
  f (cancel_tasks first why ret exc st) = f st.
Proof.
  intros Hret Hexc. unfold cancel_tasks. cbv zeta.
  destruct (drain _); rewrite ?frame_drain_awaited, ?f_main by assumption;
    rewrite f_emit by exact I; rewrite frame_cancel_drain;
    rewrite f_emit by exact I; apply f_cancelling.
Qed.

Lemma frame_finally why st : f (finally why st) = f st.
Proof. apply frame_cancel_tasks; intros; apply f_main. Qed.

Lemma frame_ret_of first why st : f (ret_of first why st) = f st.
Proof. destruct first; [apply frame_finally|apply f_main]. Qed.

Lemma frame_exc_of first e st : f (exc_of first e st) = f st.
Proof. destruct first; [apply frame_finally|apply f_main]. Qed.

Lemma frame_merged_loop check q st : f (merged_loop check q st) = f st.
Proof.
  revert check st. induction q as [|it q IH]; intros check st.
  - cbn [merged_loop]. destruct (check && _);
      [apply frame_finally|now rewrite f_main, f_getters].
  - cbn [merged_loop]. destruct (check && _); [apply frame_finally|].
    destruct it as [frame|e].
    + destruct (consumer _) as [|[|d|] rest];
        rewrite ?IH, ?frame_suspend_for, ?frame_finally, ?f_main,
          ?f_consumer, f_emit, frame_wakeup_next_putter, f_queue
          by exact I;
        reflexivity.
    + rewrite frame_cancel_tasks
        by (intros; first [apply frame_ret_of|apply frame_exc_of]).
      now rewrite frame_wakeup_next_putter, f_queue.
Qed.

Lemma frame_run_main st : f (run_main st) = f st.
Proof.
  unfold run_main.
  destruct (main st) as [| | |first why|first why|why]; try reflexivity;
    rewrite ?frame_merged_loop, ?frame_schedule; try reflexivity.
  - destruct (drain st); try reflexivity.
    apply frame_drain_awaited;
      intros; first [apply frame_ret_of|apply frame_exc_of].
  - destruct (heartbeat st); try reflexivity.
    apply frame_heartbeat_awaited;
      intros; first [apply frame_ret_of|apply frame_exc_of].
Qed.
End OfMain.
End Frame.

(** * How [merged] leaves its tasks *)

Section TeardownInvariant.
Import Mux MuxInv.

Lemma main_run_drain st : main (run_drain st) = main st.
Proof. apply (frame_run_drain main); intros; reflexivity. Qed.
Lemma heartbeat_run_drain st : heartbeat (run_drain st) = heartbeat st.
Proof. apply (frame_run_drain heartbeat); intros; reflexivity. Qed.
Lemma main_run_heartbeat hb st : main (run_heartbeat hb st) = main st.
Proof. apply (frame_run_heartbeat main); intros; reflexivity. Qed.
Lemma drain_run_heartbeat hb st : drain (run_heartbeat hb st) = drain st.
Proof. apply (frame_run_heartbeat drain); intros; reflexivity. Qed.
Lemma drain_run_main st : drain (run_main st) = drain st.
Proof. apply (frame_run_main drain); intros; reflexivity. Qed.
Lemma heartbeat_run_main st : heartbeat (run_main st) = heartbeat st.
Proof. apply (frame_run_main heartbeat); intros; reflexivity. Qed.

(** A task that has settled stays as it is. *)
Lemma drain_done_stays r st :
  drain st = DrainDone r -> drain (run_drain st) = DrainDone r.
Proof.
  intros Hd. unfold run_drain, drain_continue, drain_cancelled.
  destruct (drain_cancel st); cbn [drain set_drain_cancel]; rewrite Hd;
    exact Hd.
Qed.

Lemma heartbeat_done_stays hb r st :
  heartbeat st = HeartbeatDone r ->
  heartbeat (run_heartbeat hb st) = HeartbeatDone r.
Proof.
  intros Hh. unfold run_heartbeat, heartbeat_continue, heartbeat_cancelled.
  destruct (heartbeat_cancel st); cbn [heartbeat set_heartbeat_cancel];
    rewrite Hh; exact Hh.
Qed.

Lemma heartbeat_settle_heartbeat r st :
  heartbeat (settle_heartbeat r st) = HeartbeatDone r.
Proof. unfold settle_heartbeat. cbn. destruct (main st); reflexivity. Qed.

Lemma run_heartbeat_only_cancelled hb st :
  heartbeat_only_cancelled st ->
  heartbeat_only_cancelled (run_heartbeat hb st).
Proof.
  intros H r. 
  destruct (heartbeat st) as [| | |r0] eqn:Hh;
    try (rewrite (heartbeat_done_stays hb r0 st Hh); intros [= <-];
         now apply H).
  all: unfold run_heartbeat, heartbeat_continue, heartbeat_cancelled,
         heartbeat_turn;
       destruct (heartbeat_cancel st); cbn [heartbeat set_heartbeat_cancel];
       rewrite Hh; rewrite ?heartbeat_settle_heartbeat;
       try (intros [= <-]; reflexivity);
       (destruct (full st);
        [cbn; discriminate
        |rewrite (frame_suspend_for heartbeat) by (intros; reflexivity);
         cbn; discriminate]).
Qed.

(** [cancel_tasks] and what follows it, from where [drain] is awaited. *)
Lemma finish_settled why st r :
  drain st = DrainDone r -> survived r ->
  heartbeat st = HeartbeatDone Cancelled ->
  settled_at_end why (finish why st).
Proof.
  intros Hd Hr Hh. exists r. split; [exact Hd|].
  destruct r; try exact Hh. destruct Hr.
Qed.

Lemma drain_cancel_heartbeat st :
  drain (cancel_heartbeat st) = drain st.
Proof. apply (frame_cancel_heartbeat drain); intros; reflexivity. Qed.
Lemma heartbeat_cancel_heartbeat st :
  heartbeat (cancel_heartbeat st) = heartbeat st.
Proof. apply (frame_cancel_heartbeat heartbeat); intros; reflexivity. Qed.
Lemma drain_cancel_drain st : drain (cancel_drain st) = drain st.
Proof. apply (frame_cancel_drain drain); intros; reflexivity. Qed.
Lemma heartbeat_cancel_drain st :
  heartbeat (cancel_drain st) = heartbeat st.
Proof. apply (frame_cancel_drain heartbeat); intros; reflexivity. Qed.

Lemma heartbeat_awaited_last why r st rd :
  heartbeat_only_cancelled st ->
  heartbeat st = HeartbeatDone r ->
  drain st = DrainDone rd -> survived rd ->
  main_inv (heartbeat_awaited (finish why) (fun e => finish (Raising e)) r st).
Proof.
  intros H Hh Hd Hrd. pose proof (H r Hh) as ->.
  unfold heartbeat_awaited, main_inv. cbn [main finish set_main emit].
  apply (finish_settled why _ rd); first [assumption|cbn; assumption].
Qed.

Lemma drain_awaited_last why r st :
  heartbeat_only_cancelled st ->
  drain st = DrainDone r ->
  main_inv (drain_awaited false why (finish why) (fun e => finish (Raising e))
              r st).
Proof.
  intros H Hd.
  destruct (decide (survived r)) as [Hr|Hr].
  - assert (Hgo : drain_awaited false why (finish why)
                    (fun e => finish (Raising e)) r st
                  = let st' := emit (CancelCalled Heartbeat)
                                 (cancel_heartbeat
                                    (emit (Awaited Drain r) st)) in
                    match heartbeat st' with
                    | HeartbeatDone r' =>
                        heartbeat_awaited (finish why)
                          (fun e => finish (Raising e)) r' st'
                    | _ => set_main (MainAwaitingHeartbeat false why) st'
                    end)
      by (destruct r; [reflexivity|reflexivity|destruct Hr]).
    rewrite Hgo. clear Hgo. cbv zeta.
    set (st' := emit _ (cancel_heartbeat _)).
    assert (Hd' : drain st' = DrainDone r)
      by (subst st'; cbn; rewrite drain_cancel_heartbeat; exact Hd).
    assert (H' : heartbeat_only_cancelled st').
    { intros r' Hr'. subst st'. cbn in Hr'.
      rewrite heartbeat_cancel_heartbeat in Hr'. now apply H. }
    destruct (heartbeat st') as [| | |rh] eqn:Hh;
      try (unfold main_inv; cbn [main set_main]; exists r; split;
           [exact Hd'|exact Hr]).
    now apply (heartbeat_awaited_last why rh st' r).
  - destruct r as [| |e]; try (destruct Hr; exact I).
    unfold main_inv. cbn. exists (Failed e). split; [exact Hd|reflexivity].
Qed.

Lemma finally_inv why st :
  heartbeat_only_cancelled st -> main_inv (finally why st).
Proof.
  intros H. unfold finally, cancel_tasks. cbv zeta.
  destruct (drain (emit _ (cancel_drain _))) as [| | |r] eqn:Hd;
    try exact I.
  apply drain_awaited_last; [|exact Hd].
  intros r' Hr'. cbn in Hr'. rewrite heartbeat_cancel_drain in Hr'.
  now apply H.
Qed.

Lemma only_cancelled_frame st st' :
  heartbeat st' = heartbeat st ->
  heartbeat_only_cancelled st -> heartbeat_only_cancelled st'.
Proof. intros Heq H r Hr. rewrite Heq in Hr. now apply H. Qed.

Lemma heartbeat_awaited_inv first why r st rd :
  heartbeat_only_cancelled st ->
  heartbeat st = HeartbeatDone r ->
  drain st = DrainDone rd -> survived rd ->
  main_inv (heartbeat_awaited (ret_of first why) (exc_of first) r st).
Proof.
  intros H Hh Hd Hrd. destruct first.
  - pose proof (H r Hh) as ->. unfold heartbeat_awaited. cbv zeta.
    cbn [ret_of]. apply finally_inv.
    now apply (only_cancelled_frame st).
  - now apply (heartbeat_awaited_last why r st rd).
Qed.

Lemma drain_awaited_inv first why r st :
  heartbeat_only_cancelled st ->
  drain st = DrainDone r ->
  main_inv (drain_awaited first why (ret_of first why) (exc_of first) r st).
Proof.
  intros H Hd. destruct first; [|now apply drain_awaited_last].
  destruct (decide (survived r)) as [Hr|Hr].
  - assert (Hgo : drain_awaited true why (ret_of true why) (exc_of true) r st
                  = let st' := emit (CancelCalled Heartbeat)
                                 (cancel_heartbeat
                                    (emit (Awaited Drain r) st)) in
                    match heartbeat st' with
                    | HeartbeatDone r' =>
                        heartbeat_awaited (ret_of true why) (exc_of true)
                          r' st'
                    | _ => set_main (MainAwaitingHeartbeat true why) st'
                    end)
      by (destruct r; [reflexivity|reflexivity|destruct Hr]).
    rewrite Hgo. clear Hgo. cbv zeta.
    set (st' := emit _ (cancel_heartbeat _)).
    assert (Hd' : drain st' = DrainDone r)
      by (subst st'; cbn; rewrite drain_cancel_heartbeat; exact Hd).
    assert (H' : heartbeat_only_cancelled st').
    { apply (only_cancelled_frame st); [|exact H]. subst st'. cbn.
      rewrite heartbeat_cancel_heartbeat. reflexivity. }
    destruct (heartbeat st') as [| | |rh] eqn:Hh;
      try (unfold main_inv; cbn [main set_main]; exists r; split;
           [exact Hd'|exact Hr]).
    now apply (heartbeat_awaited_inv true why rh st' r).
  - destruct r as [| |e]; try (destruct Hr; exact I).
    unfold drain_awaited. cbv zeta. cbn [exc_of]. apply finally_inv.
    now apply (only_cancelled_frame st).
Qed.

Lemma cancel_tasks_inv first why st :
  heartbeat_only_cancelled st ->
  main_inv (cancel_tasks first why (ret_of first why) (exc_of first) st).
Proof.
  intros H. unfold cancel_tasks. cbv zeta.
  destruct (drain (emit _ (cancel_drain _))) as [| | |r] eqn:Hd;
    try exact I.
  apply drain_awaited_inv; [|exact Hd].
  apply (only_cancelled_frame st); [|exact H]. cbn.
  rewrite heartbeat_cancel_drain. reflexivity.
Qed.

Lemma merged_loop_inv check q st :
  heartbeat_only_cancelled st -> main_inv (merged_loop check q st).
Proof.
  revert check st. induction q as [|it q IH]; intros check st H.
  - cbn [merged_loop]. destruct (check && _);
      [now apply finally_inv|exact I].
  - cbn [merged_loop]. destruct (check && _); [now apply finally_inv|].
    assert (H' : heartbeat_only_cancelled
                   (wakeup_next_putter (set_queue q st))).
    { apply (only_cancelled_frame st); [|exact H].
      now rewrite (frame_wakeup_next_putter heartbeat)
        by (intros; reflexivity). }
    destruct it as [frame|e]; [|now apply cancel_tasks_inv].
    destruct (consumer _) as [|[|d|] rest].
    + apply IH. now apply (only_cancelled_frame (wakeup_next_putter
                                                   (set_queue q st))).
    + apply IH. now apply (only_cancelled_frame (wakeup_next_putter
                                                   (set_queue q st))).
    + unfold main_inv.
      rewrite (frame_suspend_for main) by (intros; reflexivity).
      exact I.
    + apply finally_inv.
      now apply (only_cancelled_frame (wakeup_next_putter (set_queue q st))).
Qed.

Lemma run_main_inv st : teardown_inv st -> teardown_inv (run_main st).
Proof.
  intros [H Hm]. split.
  { apply (only_cancelled_frame st); [apply heartbeat_run_main|exact H]. }
  unfold run_main. unfold main_inv in Hm.
  destruct (main st) as [| | |first why|first why|why] eqn:Hmain.
  - apply merged_loop_inv. now apply (only_cancelled_frame st).
  - now apply merged_loop_inv.
  - now apply merged_loop_inv.
  - destruct (drain st) as [| | |r] eqn:Hd;
      try (unfold main_inv; rewrite Hmain; exact I).
    now apply drain_awaited_inv.
  - destruct Hm as (rd & Hd & Hrd).
    destruct (heartbeat st) as [| | |r] eqn:Hh;
      try (unfold main_inv; rewrite Hmain; exists rd; split; assumption).
    now apply (heartbeat_awaited_inv first why r st rd).
  - unfold main_inv. rewrite Hmain. exact Hm.
Qed.

Lemma main_inv_frame st st' :
  main st' = main st ->
  (forall r, drain st = DrainDone r -> drain st' = DrainDone r) ->
  (forall r, heartbeat st = HeartbeatDone r ->
             heartbeat st' = HeartbeatDone r) ->
  main_inv st -> main_inv st'.
Proof.
  intros Hm Hd Hh. unfold main_inv, settled_at_end. rewrite Hm.
  destruct (main st); try (intros; exact I).
  - intros (r & Hr & Hs). exists r. split; [now apply Hd|exact Hs].
  - intros (r & Hr & Hs). exists r. split; [now apply Hd|].
    destruct r; try exact Hs; now apply Hh.
Qed.

Lemma step_inv hb st st' :
  teardown_inv st -> step hb st = Some st' -> teardown_inv st'.
Proof.
  intros Hinv. unfold step.
  destruct (ready st) as [|t rest] eqn:Hready.
  - intros Hfire. destruct Hinv as [H Hm]. split.
    + apply (only_cancelled_frame st); [|exact H].
      apply (frame_fire_timers heartbeat) with (st := st);
        first [exact Hfire|intros; reflexivity].
    + apply (main_inv_frame st); [| | |exact Hm].
      * apply (frame_fire_timers main) with (st := st);
          first [exact Hfire|intros; reflexivity].
      * intros r <-. apply (frame_fire_timers drain) with (st := st);
          first [exact Hfire|intros; reflexivity].
      * intros r <-. apply (frame_fire_timers heartbeat) with (st := st);
          first [exact Hfire|intros; reflexivity].
  - intros [= <-].
    assert (Hinv0 : teardown_inv (set_ready rest st)) by exact Hinv.
    clear Hinv. revert Hinv0. generalize (set_ready rest st). clear.
    intros st [H Hm]. destruct t; cbn [run_task].
    + apply run_main_inv. split; assumption.
    + split.
      * apply (only_cancelled_frame st);
          [apply heartbeat_run_drain|exact H].
      * apply (main_inv_frame st); [apply main_run_drain| | |exact Hm].
        -- intros r. apply drain_done_stays.
        -- intros r <-. apply heartbeat_run_drain.
    + split.
      * now apply run_heartbeat_only_cancelled.
      * apply (main_inv_frame st);
          [apply main_run_heartbeat| | |exact Hm].
        -- intros r <-. apply drain_run_heartbeat.
        -- intros r. apply heartbeat_done_stays.
Qed.

Lemma exec_inv hb fuel st :
  teardown_inv st -> teardown_inv (exec hb fuel st).
Proof.
  revert st. induction fuel as [|fuel IH]; intros st Hinv; [exact Hinv|].
  cbn [exec]. destruct (main st); try exact Hinv;
    (destruct (step hb st) as [st'|] eqn:Hstep; [|exact Hinv];
     apply IH; eapply step_inv; eassumption).
Qed.

(** X8. When [merged] is over, [drain] has settled.  If [drain] did not
    fail, [heartbeat] has been cancelled and has settled as well, whatever
    made [merged] end; if [drain] failed with an exception, [merged] raises
    that exception, and nothing is said of [heartbeat]. *)
Theorem tasks_settled_at_end (hb : string) (source : AsyncGenerator string)
  (reactions : list reaction) (fuel : nat) (why : exit_reason) :
  let final := exec hb fuel (start source reactions) in
  main final = MainDone why ->
  exists r,
    drain final = DrainDone r
    /\ match r with
       | Failed e => why = Raising e
       | _ => heartbeat final = HeartbeatDone Cancelled
       end.
Proof.
  intros final Hmain.
  assert (Hinv : teardown_inv final).
  { apply exec_inv. split; [intros r; cbn; discriminate|exact I]. }
  destruct Hinv as [_ Hm]. unfold main_inv in Hm.
  rewrite Hmain in Hm. exact Hm.
Qed.
End TeardownInvariant.

Lemma tasks_settled_at_end_witness :
  let final :=
    Mux.exec "hb" 40
      (Mux.start (mkGen [Sleep 1; Produce "one"; Sleep 1; Produce "two"] None)
         [Mux.Next; Mux.Close]) in
  exists r,
    Mux.drain final = Mux.DrainDone r
    /\ match r with
       | Mux.Failed e => Mux.Closed = Mux.Raising e
       | _ => Mux.heartbeat final = Mux.HeartbeatDone Mux.Cancelled
       end.
Proof.
  apply (tasks_settled_at_end "hb"
           (mkGen [Sleep 1; Produce "one"; Sleep 1; Produce "two"] None)
           [Mux.Next; Mux.Close] 40 Mux.Closed).
  vm_compute. reflexivity.
Defined.

(** * The order of the frames *)

(** Case analysis on every [match] of the goal. *)
Ltac split_pc :=
  repeat match goal with
         | |- context [match ?x with _ => _ end] => destruct x
         end.

Section OrderFacts.
Import Mux MuxLog.

Lemma pushed_emit e st :
  pushed (emit e st)
  = pushed st ++ match e with Pushed _ _ it => [it] | _ => [] end.
Proof.
  unfold pushed, emit. cbn [log set_log]. rewrite omap_app.
  destruct e; reflexivity.
Qed.

Lemma yielded_emit e st :
  yielded (emit e st)
  = yielded st ++ match e with Yielded _ f => [Data f] | _ => [] end.
Proof.
  unfold yielded, frames, emit. cbn [log set_log].
  rewrite omap_app, map_app. destruct e; reflexivity.
Qed.

Lemma account_emit e st :
  match e with Pushed _ _ _ | Yielded _ _ => False | _ => True end ->
  account (emit e st) = account st.
Proof.
  intros He. unfold account. rewrite pushed_emit, yielded_emit.
  destruct e; try destruct He; now rewrite !app_nil_r.
Qed.

Lemma account_put_nowait who it st :
  account (put_nowait who it st)
  = (pushed st ++ [it], yielded st, queue st ++ [it]).
Proof.
  unfold put_nowait.
  rewrite (frame_wakeup_next_getter account) by (intros; reflexivity).
  unfold account. rewrite pushed_emit, yielded_emit, app_nil_r.
  reflexivity.
Qed.

Lemma balance_keep d st st' :
  account st' = account st -> balance d st -> balance d st'.
Proof. unfold balance, account. intros [= -> -> ->]. auto. Qed.

Lemma balance_put d who it st :
  balance d st -> balance d (put_nowait who it st).
Proof.
  unfold balance. intros Hb.
  pose proof (account_put_nowait who it st) as Ha.
  unfold account in Ha. injection Ha as -> -> ->.
  rewrite Hb, !app_assoc. reflexivity.
Qed.

Lemma account_settle_drain r st : account (settle_drain r st) = account st.
Proof. apply (frame_settle_drain account); intros; reflexivity. Qed.

Lemma account_settle_heartbeat r st :
  account (settle_heartbeat r st) = account st.
Proof. apply (frame_settle_heartbeat account); intros; reflexivity. Qed.

Lemma account_suspend_for d t st : account (suspend_for d t st) = account st.
Proof. apply (frame_suspend_for account); intros; reflexivity. Qed.

Lemma account_abandon_put c st : account (abandon_put c st) = account st.
Proof. apply (frame_abandon_put account); intros; reflexivity. Qed.

Lemma account_wakeup_next_putter st :
  account (wakeup_next_putter st) = account st.
Proof. apply (frame_wakeup_next_putter account); intros; reflexivity. Qed.

Lemma account_cancel_drain st : account (cancel_drain st) = account st.
Proof. apply (frame_cancel_drain account); intros; reflexivity. Qed.

Lemma account_cancel_heartbeat st :
  account (cancel_heartbeat st) = account st.
Proof. apply (frame_cancel_heartbeat account); intros; reflexivity. Qed.

Lemma drain_raise_balance d e st :
  balance d st -> balance d (drain_raise e st).
Proof.
  intros Hb.
  assert (Hh : balance d (drain_handler e st)).
  { unfold drain_handler. destruct (cancelling st).
    - eapply balance_keep; [apply account_settle_drain|exact Hb].
    - destruct (full st).
      + apply (balance_keep d st); [reflexivity|exact Hb].
      + eapply balance_keep; [apply account_settle_drain|].
        now apply balance_put. }
  destruct e; try exact Hh.
  eapply balance_keep; [apply account_settle_drain|exact Hb].
Qed.

Lemma drain_iterate_balance d rest st :
  balance d st -> balance d (drain_iterate rest st).
Proof.
  revert st. induction rest as [|s rest IH]; intros st Hb.
  - cbn. eapply balance_keep; [apply account_settle_drain|exact Hb].
  - destruct s as [n|frame|e]; cbn [drain_iterate].
    + eapply balance_keep; [apply account_suspend_for|exact Hb].
    + destruct (full st); [exact Hb|]. apply IH. now apply balance_put.
    + now apply drain_raise_balance.
Qed.

Lemma run_drain_balance d st : balance d st -> balance d (run_drain st).
Proof.
  intros Hb. unfold run_drain.
  assert (Hcancelled : forall c,
            balance d (drain_cancelled c (set_drain_cancel NoRequest st))).
  { intros c. unfold drain_cancelled.
    cbn [drain set_drain_cancel stream_on_cancel].
    destruct (drain st); try exact Hb.
    - eapply balance_keep; [apply account_settle_drain|exact Hb].
    - destruct (stream_on_cancel st).
      + now apply drain_raise_balance.
      + eapply balance_keep; [apply account_settle_drain|exact Hb].
    - eapply balance_keep; [apply account_settle_drain|].
      eapply balance_keep; [apply account_abandon_put|exact Hb]. }
  destruct (drain_cancel st); try apply Hcancelled.
  unfold drain_continue.
  destruct (drain st); try exact Hb; try now apply drain_iterate_balance.
  destruct (full st); [exact Hb|].
  pose proof (balance_put d Drain it st Hb) as Hput.
  destruct in_handler.
  - eapply balance_keep; [apply account_settle_drain|exact Hput].
  - now apply drain_iterate_balance.
Qed.

Lemma run_heartbeat_balance d hb st :
  balance d st -> balance d (run_heartbeat hb st).
Proof.
  intros Hb. unfold run_heartbeat.
  assert (Hcancelled : forall c,
            balance d (heartbeat_cancelled c
                         (set_heartbeat_cancel NoRequest st))).
  { intros c. unfold heartbeat_cancelled.
    cbn [heartbeat set_heartbeat_cancel].
    destruct (heartbeat st); try exact Hb;
      (eapply balance_keep; [apply account_settle_heartbeat|]);
      try exact Hb.
    eapply balance_keep; [apply account_abandon_put|exact Hb]. }
  destruct (heartbeat_cancel st); try apply Hcancelled.
  unfold heartbeat_continue, heartbeat_turn.
  destruct (heartbeat st); try exact Hb;
    (destruct (full st); [exact Hb|];
     eapply balance_keep; [apply account_suspend_for|];
     now apply (balance_put d Heartbeat)).
Qed.

(** [cancel_tasks] and what follows it put nothing and yield nothing. *)
Lemma account_heartbeat_awaited ret exc r st :
  (forall s, account (ret s) = account s) ->
  (forall e s, account (exc e s) = account s) ->
  account (heartbeat_awaited ret exc r st) = account st.
Proof.
  intros Hret Hexc. unfold heartbeat_awaited. cbv zeta.
  destruct r; rewrite ?Hret, ?Hexc; now apply account_emit.
Qed.

Lemma account_drain_awaited first why ret exc r st :
  (forall s, account (ret s) = account s) ->
  (forall e s, account (exc e s) = account s) ->
  account (drain_awaited first why ret exc r st) = account st.
Proof.
  intros Hret Hexc. unfold drain_awaited. cbv zeta.
  destruct r; rewrite ?Hexc; try now apply account_emit.
  all: destruct (heartbeat _);
    rewrite ?account_heartbeat_awaited by assumption;
    change (account (set_main ?v ?s)) with (account s);
    rewrite account_emit by exact I;
    rewrite account_cancel_heartbeat; now apply account_emit.
Qed.

Lemma account_cancel_tasks first why ret exc st :
  (forall s, account (ret s) = account s) ->
  (forall e s, account (exc e s) = account s) ->
  account (cancel_tasks first why ret exc st) = account st.
Proof.
  intros Hret Hexc. unfold cancel_tasks. cbv zeta.
  destruct (drain _); rewrite ?account_drain_awaited by assumption;
    change (account (set_main ?v ?s)) with (account s);
    rewrite account_emit by exact I;
    rewrite account_cancel_drain; now rewrite account_emit by exact I.
Qed.

Lemma account_finally why st : account (finally why st) = account st.
Proof. apply account_cancel_tasks; reflexivity. Qed.

Lemma account_ret_of first why st : account (ret_of first why st) = account st.
Proof. destruct first; [apply account_finally|reflexivity]. Qed.

Lemma account_exc_of first e st : account (exc_of first e st) = account st.
Proof. destruct first; [apply account_finally|reflexivity]. Qed.

Lemma raising_finally e st : raising (main (finally (Raising e) st)) = true.
Proof.
  unfold finally, cancel_tasks, drain_awaited, heartbeat_awaited, finish.
  cbv zeta. split_pc; reflexivity.
Qed.

Lemma raising_heartbeat_awaited first e r st :
  raising (main (heartbeat_awaited (ret_of first (Raising e)) (exc_of first)
                   r st))
  = true.
Proof.
  unfold heartbeat_awaited. cbv zeta.
  destruct first, r; cbn [ret_of exc_of];
    first [apply raising_finally|reflexivity].
Qed.

Lemma raising_drain_awaited first e r st :
  raising (main (drain_awaited first (Raising e) (ret_of first (Raising e))
                   (exc_of first) r st))
  = true.
Proof.
  unfold drain_awaited. cbv zeta.
  destruct r;
    try (destruct first; cbn [exc_of];
         first [apply raising_finally|reflexivity]);
    (destruct (heartbeat _);
     first [apply raising_heartbeat_awaited|reflexivity]).
Qed.

Lemma raising_cancel_tasks first e st :
  raising (main (cancel_tasks first (Raising e) (ret_of first (Raising e))
                   (exc_of first) st))
  = true.
Proof.
  unfold cancel_tasks. cbv zeta.
  destruct (drain _); first [apply raising_drain_awaited|reflexivity].
Qed.

Lemma fifo_inv_loop st :
  balance [] st -> fifo_inv st.
Proof. intros Hb. exists []. split; [exact Hb|now left]. Qed.

Lemma merged_loop_fifo check q st :
  queue st = q -> balance [] st -> fifo_inv (merged_loop check q st).
Proof.
  revert check st. induction q as [|it q IH]; intros check st Hq Hb.
  - cbn [merged_loop]. destruct (check && _).
    + apply fifo_inv_loop.
      eapply balance_keep; [apply account_finally|exact Hb].
    + apply fifo_inv_loop. apply (balance_keep [] st); [reflexivity|exact Hb].
  - cbn [merged_loop]. destruct (check && _).
    { apply fifo_inv_loop.
      eapply balance_keep; [apply account_finally|exact Hb]. }
    set (st1 := wakeup_next_putter (set_queue q st)).
    assert (Ha1 : account st1 = (pushed st, yielded st, q))
      by (subst st1; rewrite account_wakeup_next_putter; reflexivity).
    pose proof (f_equal (fun a => a.1.1) Ha1) as Hp1.
    pose proof (f_equal (fun a => a.1.2) Ha1) as Hy1.
    pose proof (f_equal (fun a => a.2) Ha1) as Hq1.
    cbn in Hp1, Hy1, Hq1. clear Ha1.
    unfold balance in Hb. rewrite Hq in Hb. cbn [app] in Hb.
    destruct it as [frame|e].
    + set (st2 := emit (Yielded (now st1) frame) st1).
      assert (Hb2 : balance [] st2).
      { unfold balance. subst st2. rewrite pushed_emit, yielded_emit.
        change (queue (emit ?e ?s)) with (queue s).
        rewrite Hp1, Hy1, Hq1, Hb, app_nil_r.
        cbn [app]. now rewrite <- app_assoc. }
      assert (Hq2 : queue st2 = q) by exact Hq1.
      destruct (consumer st2) as [|[|d|] rest].
      * now apply IH.
      * apply IH; [exact Hq2|].
        apply (balance_keep [] st2); [reflexivity|exact Hb2].
      * apply fifo_inv_loop.
        eapply balance_keep; [apply account_suspend_for|].
        apply (balance_keep [] st2); [reflexivity|exact Hb2].
      * apply fifo_inv_loop.
        eapply balance_keep; [apply account_finally|].
        apply (balance_keep [] st2); [reflexivity|exact Hb2].
    + exists [Error e]. split.
      * eapply balance_keep.
        { apply account_cancel_tasks;
            intros; first [apply account_ret_of|apply account_exc_of]. }
        unfold balance. rewrite Hp1, Hy1, Hq1. exact Hb.
      * right. split; [apply raising_cancel_tasks|now exists e].
Qed.

Lemma fifo_inv_keep st st' :
  account st' = account st -> main st' = main st ->
  fifo_inv st -> fifo_inv st'.
Proof.
  intros Ha Hm (d & Hb & Hd). exists d. split.
  - now apply (balance_keep d st).
  - now rewrite Hm.
Qed.

Lemma run_main_fifo st : fifo_inv st -> fifo_inv (run_main st).
Proof.
  intros Hinv. unfold run_main.
  destruct (main st) as [| | |first why|first why|why] eqn:Hmain;
    try exact Hinv.
  1,2,3: destruct Hinv as (d & Hb & [->|[Hpast _]]);
    [|rewrite Hmain in Hpast; discriminate Hpast];
    apply merged_loop_fifo; [reflexivity|];
    apply (balance_keep [] st); [reflexivity|exact Hb].
  - destruct (drain st); try exact Hinv.
    destruct Hinv as (d & Hb & Hd). exists d. split.
    + eapply balance_keep; [|exact Hb].
      apply account_drain_awaited;
        intros; first [apply account_ret_of|apply account_exc_of].
    + rewrite Hmain in Hd. destruct Hd as [->|[Hr He]]; [now left|right].
      destruct why; try discriminate Hr.
      split; [apply raising_drain_awaited|exact He].
  - destruct (heartbeat st); try exact Hinv.
    destruct Hinv as (d & Hb & Hd). exists d. split.
    + eapply balance_keep; [|exact Hb].
      apply account_heartbeat_awaited;
        intros; first [apply account_ret_of|apply account_exc_of].
    + rewrite Hmain in Hd. destruct Hd as [->|[Hr He]]; [now left|right].
      destruct why; try discriminate Hr.
      split; [apply raising_heartbeat_awaited|exact He].
Qed.

Lemma step_fifo hb st st' :
  fifo_inv st -> step hb st = Some st' -> fifo_inv st'.
Proof.
  intros Hinv. unfold step.
  destruct (ready st) as [|t rest] eqn:Hready.
  - intros Hfire. apply (fifo_inv_keep st); [| |exact Hinv].
    + apply (frame_fire_timers account) with (st := st);
        first [exact Hfire|intros; reflexivity].
    + apply (frame_fire_timers main) with (st := st);
        first [exact Hfire|intros; reflexivity].
  - intros [= <-].
    assert (Hinv0 : fifo_inv (set_ready rest st)) by exact Hinv.
    clear Hinv. revert Hinv0. generalize (set_ready rest st). clear.
    intros st Hinv. destruct t; cbn [run_task].
    + now apply run_main_fifo.
    + destruct Hinv as (d & Hb & Hd). exists d. split.
      * now apply run_drain_balance.
      * now rewrite main_run_drain.
    + destruct Hinv as (d & Hb & Hd). exists d. split.
      * now apply run_heartbeat_balance.
      * now rewrite main_run_heartbeat.
Qed.

Lemma exec_fifo hb fuel st : fifo_inv st -> fifo_inv (exec hb fuel st).
Proof.
  revert st. induction fuel as [|fuel IH]; intros st Hinv; [exact Hinv|].
  cbn [exec]. destruct (main st); try exact Hinv;
    (destruct (step hb st) as [st'|] eqn:Hstep; [|exact Hinv];
     apply IH; eapply step_fifo; eassumption).
Qed.

(** X9. The queue is first in, first out, and [merged] yields what it
    pulls: at any time the items that were put, in the order of the puts,
    are the frames yielded so far, in the order of the yields, then at most
    one error pair, then the content of the queue.  No frame is yielded
    twice, out of order, or without having been put; an error pair is
    pulled only by a [merged] that then ends raising. *)
Theorem frames_in_push_order (hb : string) (source : AsyncGenerator string)
  (reactions : list reaction) (fuel : nat) :
  let final := exec hb fuel (start source reactions) in
  exists dropped,
    pushed final
    = map (fun p => Data p.2) (frames final) ++ dropped ++ queue final
    /\ (dropped = []
        \/ (exists e, dropped = [Error e])
           /\ forall why, main final = MainDone why ->
                          exists e, why = Raising e).
Proof.
  intros final.
  assert (Hinv : fifo_inv final)
    by (apply exec_fifo, fifo_inv_loop; reflexivity).
  destruct Hinv as (d & Hb & Hd). exists d. split; [exact Hb|].
  destruct Hd as [->|[Hr He]]; [now left|right].
  split; [exact He|]. intros why Hmain. rewrite Hmain in Hr.
  destruct why as [| |e']; try discriminate Hr. now exists e'.
Qed.
End OrderFacts.

(** * A prompt consumer *)

Section PromptFacts.
Import Mux MuxLog MuxPrompt.

Lemma leaving_prompt_main st : leaving (main st) = true -> prompt_main st.
Proof.
  unfold prompt_main. destruct (main st) as [| | |f why|f why|why];
    try discriminate; destruct why; try discriminate; intros _;
    first [ discriminate | (intros; discriminate) ].
Qed.

Ltac leaving_cases :=
  unfold ret_of, exc_of, finally, cancel_tasks, drain_awaited,
    heartbeat_awaited, finish; cbv zeta; split_pc; reflexivity.

Lemma cancel_tasks_leaving first why st :
  why <> Exhausted ->
  leaving (main (cancel_tasks first why (ret_of first why) (exc_of first) st))
  = true.
Proof.
  intros Hwhy. destruct why as [| |e]; try contradiction;
    destruct first; leaving_cases.
Qed.

Lemma drain_awaited_leaving first why r st :
  why <> Exhausted ->
  leaving (main (drain_awaited first why (ret_of first why) (exc_of first)
                   r st))
  = true.
Proof.
  intros Hwhy. destruct why as [| |e]; try contradiction;
    destruct first, r; leaving_cases.
Qed.

Lemma heartbeat_awaited_leaving first why r st :
  why <> Exhausted ->
  leaving (main (heartbeat_awaited (ret_of first why) (exc_of first) r st))
  = true.
Proof.
  intros Hwhy. destruct why as [| |e]; try contradiction;
    destruct first, r; leaving_cases.
Qed.

Lemma cancel_heartbeat_requested st :
  heartbeat_cancel (cancel_heartbeat st) <> NoRequest
  \/ exists r, heartbeat st = HeartbeatDone r.
Proof.
  unfold cancel_heartbeat, request_cancel.
  destruct (heartbeat st) as [| | |r]; [| | |right; now exists r];
    left; destruct (decide _); cbn; try discriminate;
    destruct (heartbeat_cancel st); discriminate.
Qed.

(** [merged] finds the stream exhausted and the queue empty. *)
Lemma finally_exhausted r st :
  queue st = [] -> drain st = DrainDone r ->
  prompt_main (finally Exhausted st).
Proof.
  intros Hq Hd. unfold finally, cancel_tasks. cbv zeta.
  set (st1 := emit (CancelCalled Drain) (cancel_drain _)).
  assert (Hd1 : drain st1 = DrainDone r)
    by (subst st1; cbn; rewrite drain_cancel_drain; exact Hd).
  assert (Hq1 : queue st1 = [])
    by (subst st1; cbn; rewrite queue_cancel_drain; exact Hq).
  rewrite Hd1. clearbody st1. clear st Hq Hd.
  destruct (decide (MuxInv.survived r)) as [Hr|Hr].
  - assert (Hgo : drain_awaited false Exhausted (finish Exhausted)
                    (fun e => finish (Raising e)) r st1
                  = let st2 := emit (CancelCalled Heartbeat)
                                 (cancel_heartbeat
                                    (emit (Awaited Drain r) st1)) in
                    match heartbeat st2 with
                    | HeartbeatDone r' =>
                        heartbeat_awaited (finish Exhausted)
                          (fun e => finish (Raising e)) r' st2
                    | _ => set_main (MainAwaitingHeartbeat false Exhausted) st2
                    end)
      by (destruct r; [reflexivity|reflexivity|destruct Hr]).
    rewrite Hgo. clear Hgo. cbv zeta.
    set (st2 := emit _ (cancel_heartbeat _)).
    assert (Hd2 : drain st2 = DrainDone r)
      by (subst st2; cbn; rewrite drain_cancel_heartbeat; exact Hd1).
    assert (Hq2 : queue st2 = [])
      by (subst st2; cbn; rewrite queue_cancel_heartbeat; exact Hq1).
    assert (Hc2 : heartbeat_cancel st2 <> NoRequest
                  \/ exists r', heartbeat st2 = HeartbeatDone r').
    { subst st2. cbn.
      destruct (cancel_heartbeat_requested (emit (Awaited Drain r) st1))
        as [Hc|[r' Hr']]; [now left|right].
      exists r'. now rewrite heartbeat_cancel_heartbeat. }
    clearbody st2.
    destruct (heartbeat st2) as [| | |rh] eqn:Hh;
      try (unfold prompt_main; cbn [main set_main]; intros _;
           split; [exact Hq2|split; [exists r; exact Hd2|]];
           destruct Hc2 as [Hc|[r' Hr']]; [left; exact Hc|discriminate Hr']).
    unfold heartbeat_awaited. cbv zeta.
    destruct rh; unfold prompt_main; cbn; intros _; exact Hq2.
  - destruct r as [| |e]; try (destruct Hr; exact I).
    apply leaving_prompt_main. reflexivity.
Qed.

Lemma consumer_finally why st : consumer (finally why st) = consumer st.
Proof. apply (frame_finally consumer); intros; reflexivity. Qed.

Lemma consumer_cancel_tasks first why st :
  consumer (cancel_tasks first why (ret_of first why) (exc_of first) st)
  = consumer st.
Proof.
  apply (frame_cancel_tasks consumer);
    intros; first [reflexivity
                  |apply (frame_ret_of consumer); intros; reflexivity
                  |apply (frame_exc_of consumer); intros; reflexivity].
Qed.

Lemma consumer_drain_awaited first why r st :
  consumer (drain_awaited first why (ret_of first why) (exc_of first) r st)
  = consumer st.
Proof.
  apply (frame_drain_awaited consumer);
    intros; first [reflexivity
                  |apply (frame_ret_of consumer); intros; reflexivity
                  |apply (frame_exc_of consumer); intros; reflexivity].
Qed.

Lemma consumer_heartbeat_awaited first why r st :
  consumer (heartbeat_awaited (ret_of first why) (exc_of first) r st)
  = consumer st.
Proof.
  apply (frame_heartbeat_awaited consumer);
    intros; first [reflexivity
                  |apply (frame_ret_of consumer); intros; reflexivity
                  |apply (frame_exc_of consumer); intros; reflexivity].
Qed.

Lemma merged_loop_prompt check q st :
  queue st = q -> length q <= maxsize ->
  forallb prompt (consumer st) = true ->
  (check = true -> q = []) ->
  forallb prompt (consumer (merged_loop check q st)) = true
  /\ prompt_main (merged_loop check q st).
Proof.
  revert check st. induction q as [|it q IH]; intros check st Hq Hlen Hp Hc.
  - cbn [merged_loop].
    destruct (check && _) eqn:Hdone.
    + apply andb_true_iff in Hdone as [_ Hdone].
      destruct (drain st) as [| | |r] eqn:Hd; try discriminate Hdone.
      split; [now rewrite consumer_finally|].
      now apply (finally_exhausted r).
    + split; [exact Hp|exact I].
  - destruct check; [now specialize (Hc eq_refl)|].
    assert (q = []) as -> by (destruct q; [reflexivity|cbn in Hlen;
                                            unfold maxsize in Hlen; lia]).
    cbn [merged_loop andb].
    set (st1 := wakeup_next_putter (set_queue [] st)).
    assert (Hq1 : queue st1 = [])
      by (subst st1; now rewrite queue_wakeup_next_putter).
    assert (Hp1 : consumer st1 = consumer st)
      by (subst st1;
          now rewrite (frame_wakeup_next_putter consumer)
            by (intros; reflexivity)).
    clearbody st1.
    destruct it as [frame|e].
    + set (st2 := emit (Yielded (now st1) frame) st1).
      assert (Hq2 : queue st2 = []) by exact Hq1.
      assert (Hp2 : consumer st2 = consumer st) by exact Hp1.
      clearbody st2. rewrite <- Hp2 in Hp.
      destruct (consumer st2) as [|[|d|] rest] eqn:Hcons.
      * apply (IH true st2); try assumption;
          [cbn; lia|now rewrite Hcons|reflexivity].
      * apply (IH true (set_consumer rest st2)); try assumption;
          [cbn; lia|reflexivity].
      * discriminate Hp.
      * split; [now rewrite consumer_finally|].
        apply leaving_prompt_main.
        now apply (cancel_tasks_leaving false Closed).
    + split.
      * rewrite consumer_cancel_tasks. now rewrite Hp1.
      * apply leaving_prompt_main. now apply cancel_tasks_leaving.
Qed.

Lemma consumer_run_drain st : consumer (run_drain st) = consumer st.
Proof. apply (frame_run_drain consumer); intros; reflexivity. Qed.

Lemma consumer_run_heartbeat hb st :
  consumer (run_heartbeat hb st) = consumer st.
Proof. apply (frame_run_heartbeat consumer); intros; reflexivity. Qed.

Lemma run_main_prompt st : prompt_inv st -> prompt_inv (run_main st).
Proof.
  intros (Hb & Hp & Hm).
  split; [now apply run_main_bounded|].
  unfold run_main. unfold prompt_main in Hm.
  destruct (main st) as [| | |first why|first why|why] eqn:Hmain;
    try contradiction.
  - now apply merged_loop_prompt.
  - destruct (drain st) as [| | |r] eqn:Hd;
      try (split; [exact Hp|unfold prompt_main; now rewrite Hmain]).
    split.
    + now rewrite consumer_drain_awaited.
    + apply leaving_prompt_main. now apply drain_awaited_leaving.
  - destruct (heartbeat st) as [| | |r] eqn:Hh;
      try (split; [exact Hp|];
           unfold prompt_main; rewrite Hmain; intros Hw;
           destruct (Hm Hw) as (Hq & Hd & [Hc|[r' Hr']]);
           [split; [exact Hq|split; [exact Hd|left; exact Hc]]
           |discriminate Hr']).
    split.
    + now rewrite consumer_heartbeat_awaited.
    + assert (Hcase : why = Exhausted \/ why <> Exhausted)
        by (destruct why; [now left|now right|now right]).
      destruct Hcase as [->|Hwhy];
        [|apply leaving_prompt_main; now apply heartbeat_awaited_leaving].
      destruct (Hm eq_refl) as (Hq & [rd Hd] & _).
      unfold heartbeat_awaited. cbv zeta.
      destruct r as [| |e].
      * destruct first; cbn [ret_of].
        -- now apply (finally_exhausted rd).
        -- unfold prompt_main. cbn. intros _. exact Hq.
      * destruct first; cbn [ret_of].
        -- now apply (finally_exhausted rd).
        -- unfold prompt_main. cbn. intros _. exact Hq.
      * apply leaving_prompt_main. destruct first; cbn [exc_of].
        -- now apply (cancel_tasks_leaving false (Raising e)).
        -- reflexivity.
  - split; [exact Hp|unfold prompt_main; now rewrite Hmain].
Qed.

Lemma run_drain_done r st :
  drain st = DrainDone r -> queue (run_drain st) = queue st.
Proof.
  intros Hd. unfold run_drain, drain_continue, drain_cancelled.
  destruct (drain_cancel st); cbn [drain set_drain_cancel]; rewrite Hd;
    reflexivity.
Qed.

Lemma run_heartbeat_cancelled hb st :
  heartbeat_cancel st <> NoRequest
  \/ (exists r, heartbeat st = HeartbeatDone r) ->
  queue (run_heartbeat hb st) = queue st
  /\ exists r, heartbeat (run_heartbeat hb st) = HeartbeatDone r.
Proof.
  intros Hc. unfold run_heartbeat.
  assert (Hcancelled : forall c,
            queue (heartbeat_cancelled c (set_heartbeat_cancel NoRequest st))
            = queue st
            /\ exists r,
                 heartbeat (heartbeat_cancelled c
                              (set_heartbeat_cancel NoRequest st))
                 = HeartbeatDone r).
  { intros c. unfold heartbeat_cancelled.
    cbn [heartbeat set_heartbeat_cancel].
    destruct (heartbeat st) as [| | |r] eqn:Hh;
      rewrite ?queue_settle_heartbeat, ?queue_abandon_put,
        ?heartbeat_settle_heartbeat;
      (split; [reflexivity|eauto]). }
  destruct (heartbeat_cancel st) eqn:Hreq; try apply Hcancelled.
  destruct Hc as [Hc|[r Hr]]; [now destruct Hc|].
  unfold heartbeat_continue. rewrite Hr. split; [reflexivity|now exists r].
Qed.

Lemma run_drain_prompt st :
  (forall why, main st <> MainDone why) ->
  prompt_inv st -> prompt_inv (run_drain st).
Proof.
  intros Hrun (Hb & Hp & Hm).
  split; [now apply run_drain_bounded|].
  split; [now rewrite consumer_run_drain|].
  unfold prompt_main in *. rewrite main_run_drain.
  destruct (main st) as [| | |first why|first why|why]; try exact Hm.
  - intros Hw. destruct (Hm Hw) as (Hq & [r Hd] & Hc).
    split; [now rewrite (run_drain_done r)|].
    split; [exists r; now apply drain_done_stays|].
    rewrite heartbeat_run_drain.
    now rewrite (frame_run_drain heartbeat_cancel) by (intros; reflexivity).
  - now destruct (Hrun why).
Qed.

Lemma run_heartbeat_prompt hb st :
  (forall why, main st <> MainDone why) ->
  prompt_inv st -> prompt_inv (run_heartbeat hb st).
Proof.
  intros Hrun (Hb & Hp & Hm).
  split; [now apply run_heartbeat_bounded|].
  split; [now rewrite consumer_run_heartbeat|].
  unfold prompt_main in *. rewrite main_run_heartbeat.
  destruct (main st) as [| | |first why|first why|why]; try exact Hm.
  - intros Hw. destruct (Hm Hw) as (Hq & [r Hd] & Hc).
    destruct (run_heartbeat_cancelled hb st Hc) as [Hq' Hh'].
    split; [now rewrite Hq'|].
    split; [exists r; now rewrite drain_run_heartbeat|].
    right. exact Hh'.
  - now destruct (Hrun why).
Qed.

Lemma fire_timers_prompt st st' :
  fire_timers st = Some st' -> prompt_inv st -> prompt_inv st'.
Proof.
  intros Hfire.
  assert (Hfield : forall A (f : state -> A),
            (forall v s, f (set_ready v s) = f s) ->
            (forall v s, f (set_timers v s) = f s) ->
            (forall v s, f (set_now v s) = f s) ->
            f st' = f st).
  { intros A f H1 H2 H3.
    now apply (frame_fire_timers f) with (st := st). }
  unfold prompt_inv, prompt_main.
  rewrite (Hfield _ queue), (Hfield _ consumer), (Hfield _ main),
    (Hfield _ drain), (Hfield _ heartbeat), (Hfield _ heartbeat_cancel)
    by (intros; reflexivity).
  auto.
Qed.

Lemma step_prompt hb st st' :
  (forall why, main st <> MainDone why) ->
  prompt_inv st -> step hb st = Some st' -> prompt_inv st'.
Proof.
  intros Hrun Hinv. unfold step.
  destruct (ready st) as [|t rest] eqn:Hready.
  - intros Hfire. now apply (fire_timers_prompt st).
  - intros [= <-].
    assert (Hinv0 : prompt_inv (set_ready rest st)) by exact Hinv.
    assert (Hrun0 : forall why, main (set_ready rest st) <> MainDone why)
      by exact Hrun.
    clear Hinv Hrun. revert Hinv0 Hrun0. generalize (set_ready rest st).
    clear. intros st Hinv Hrun. destruct t; cbn [run_task].
    + now apply run_main_prompt.
    + now apply run_drain_prompt.
    + now apply run_heartbeat_prompt.
Qed.

Lemma exec_prompt hb fuel st :
  prompt_inv st -> prompt_inv (exec hb fuel st).
Proof.
  revert st. induction fuel as [|fuel IH]; intros st Hinv; [exact Hinv|].
  cbn [exec]. destruct (main st) eqn:Hmain; try exact Hinv;
    (destruct (step hb st) as [st'|] eqn:Hstep; [|exact Hinv];
     apply IH; eapply step_prompt; [|exact Hinv|exact Hstep];
     intros why'; rewrite Hmain; discriminate).
Qed.

(** With a prompt consumer, a [merged] that ends by exhaustion leaves the
    queue empty. *)
Lemma exhausted_queue_empty hb source reactions fuel :
  forallb prompt reactions = true ->
  main (exec hb fuel (start source reactions)) = MainDone Exhausted ->
  queue (exec hb fuel (start source reactions)) = [].
Proof.
  intros Hp Hmain. destruct fuel as [|fuel]; [discriminate Hmain|].
  change (exec hb (S fuel) (start source reactions))
    with (exec hb fuel
            (run_main (set_ready [] (start source reactions)))) in *.
  assert (Hinv : prompt_inv
                   (exec hb fuel
                      (run_main (set_ready [] (start source reactions))))).
  { apply exec_prompt. split; [cbn; unfold maxsize; lia|].
    split; [exact Hp|exact I]. }
  destruct Hinv as (_ & _ & Hm). unfold prompt_main in Hm.
  rewrite Hmain in Hm. now apply Hm.
Qed.

(** X10. A consumer that never stays away between two frames (it asks for
    the next frame, or closes the generator, as soon as it has one) loses
    nothing: when [merged] ends because the stream is exhausted, the queue
    is empty, and the frames it has yielded are all the items that were
    put, in the order of the puts. *)
Theorem prompt_consumer_loses_nothing (hb : string)
  (source : AsyncGenerator string) (reactions : list reaction) (fuel : nat) :
  let final := exec hb fuel (start source reactions) in
  forallb prompt reactions = true ->
  main final = MainDone Exhausted ->
  queue final = []
  /\ pushed final = map (fun p => Data p.2) (frames final).
Proof.
  intros final Hp Hmain.
  assert (Hfifo : fifo_inv final)
    by (apply exec_fifo, fifo_inv_loop; reflexivity).
  assert (Hq : queue final = []) by (now apply exhausted_queue_empty).
  split; [exact Hq|].
  destruct Hfifo as (d & Hb & [->|[Hr _]]).
  - unfold balance in Hb. rewrite Hq, !app_nil_r in Hb. exact Hb.
  - rewrite Hmain in Hr. discriminate Hr.
Qed.
End PromptFacts.

Lemma prompt_consumer_loses_nothing_witness :
  let final :=
    Mux.exec "hb" 40
      (Mux.start (mkGen [Sleep 1; Produce "one"; Sleep 6; Produce "end"] None)
         [Mux.Next]) in
  Mux.queue final = []
  /\ MuxLog.pushed final
     = map (fun p => Mux.Data p.2) (Mux.frames final).
Proof.
  apply (prompt_consumer_loses_nothing "hb"
           (mkGen [Sleep 1; Produce "one"; Sleep 6; Produce "end"] None)
           [Mux.Next] 40); vm_compute; reflexivity.
Defined.

(** * Every frame of the stream *)

Section SourceFacts.
Import Mux MuxLog MuxPrompt MuxSource.

Lemma log_put_nowait who it st :
  log (put_nowait who it st) = log st ++ [Pushed (now st) who it].
Proof.
  unfold put_nowait.
  now rewrite (frame_wakeup_next_getter log) by (intros; reflexivity).
Qed.

Lemma drain_frames_put who it st :
  drain_frames (put_nowait who it st)
  = drain_frames st
    ++ match who, it with
       | Drain, Data f => [f]
       | _, _ => []
       end.
Proof.
  unfold drain_frames. rewrite log_put_nowait, omap_app.
  destruct who, it; reflexivity.
Qed.

Lemma drain_frames_emit e st :
  match e with Pushed _ _ _ => False | _ => True end ->
  drain_frames (emit e st) = drain_frames st.
Proof.
  intros He. unfold drain_frames, emit. cbn [log set_log].
  rewrite omap_app. destruct e; try destruct He; apply app_nil_r.
Qed.

Lemma drain_iterate_untouched script rest st :
  drain_cancel st = NoRequest ->
  forallb unfailing rest = true ->
  script = drain_frames st ++ produced rest ->
  untouched script (drain_iterate rest st).
Proof.
  revert st. induction rest as [|s rest IH]; intros st Hc Hu Hs.
  - cbn [drain_iterate]. unfold untouched.
    rewrite (frame_settle_drain drain_cancel),
      (frame_settle_drain stream) by (intros; reflexivity).
    split; [exact Hc|split; [reflexivity|]].
    assert (Hd : drain (settle_drain Returned (set_stream [] st))
                 = DrainDone Returned)
      by (unfold settle_drain; cbn; destruct (main st); reflexivity).
    rewrite Hd.
    rewrite (frame_settle_drain drain_frames) by (intros; reflexivity).
    cbn in Hs. now rewrite app_nil_r in Hs.
  - cbn [forallb] in Hu. apply andb_true_iff in Hu as [Hs0 Hu].
    destruct s as [d|frame|e]; [| |discriminate Hs0]; cbn [drain_iterate].
    + unfold untouched.
      rewrite (frame_suspend_for drain_cancel),
        (frame_suspend_for stream), (frame_suspend_for drain),
        (frame_suspend_for drain_frames) by (intros; reflexivity).
      split; [exact Hc|split; [exact Hu|exact Hs]].
    + destruct (full st).
      * split; [exact Hc|split; [exact Hu|exact Hs]].
      * apply IH; [|exact Hu|].
        -- now rewrite (frame_put_nowait drain_cancel)
             by (intros; reflexivity).
        -- rewrite drain_frames_put, <- app_assoc. exact Hs.
Qed.

Lemma run_drain_untouched script st :
  untouched script st -> untouched script (run_drain st).
Proof.
  intros (Hc & Hu & Hs). unfold run_drain. rewrite Hc.
  unfold drain_continue.
  destruct (drain st) as [| |it in_handler|r] eqn:Hd.
  - now apply drain_iterate_untouched.
  - now apply drain_iterate_untouched.
  - destruct it as [f|e]; [|destruct Hs].
    destruct in_handler; [destruct Hs|].
    destruct (full st).
    + unfold untouched. cbn. rewrite Hd. auto.
    + apply drain_iterate_untouched.
      * now rewrite (frame_put_nowait drain_cancel)
          by (intros; reflexivity).
      * now rewrite (frame_put_nowait stream) by (intros; reflexivity).
      * rewrite drain_frames_put, <- app_assoc.
        now rewrite (frame_put_nowait stream) by (intros; reflexivity).
  - unfold untouched. rewrite Hd. auto.
Qed.

Lemma run_drain_settled r st :
  drain st = DrainDone r ->
  drain (run_drain st) = DrainDone r
  /\ drain_frames (run_drain st) = drain_frames st.
Proof.
  intros Hd. split; [now apply drain_done_stays|].
  unfold run_drain, drain_continue, drain_cancelled.
  destruct (drain_cancel st); cbn [drain set_drain_cancel]; rewrite Hd;
    reflexivity.
Qed.

Lemma drain_frames_run_heartbeat hb st :
  drain_frames (run_heartbeat hb st) = drain_frames st.
Proof.
  unfold run_heartbeat.
  assert (Hcancelled : forall c,
            drain_frames (heartbeat_cancelled c
                            (set_heartbeat_cancel NoRequest st))
            = drain_frames st).
  { intros c. unfold heartbeat_cancelled.
    destruct (heartbeat _);
      rewrite ?(frame_settle_heartbeat drain_frames),
        ?(frame_abandon_put drain_frames) by (intros; reflexivity);
      reflexivity. }
  destruct (heartbeat_cancel st); try apply Hcancelled.
  unfold heartbeat_continue, heartbeat_turn.
  destruct (heartbeat st); try reflexivity;
    (destruct (full st); [reflexivity|];
     rewrite (frame_suspend_for drain_frames) by (intros; reflexivity);
     change (drain_frames (set_heartbeat ?v ?s)) with (drain_frames s);
     rewrite drain_frames_put; apply app_nil_r).
Qed.

Lemma drain_frames_run_main st : drain_frames (run_main st) = drain_frames st.
Proof.
  apply (frame_run_main drain_frames);
    first [exact drain_frames_emit|intros; reflexivity].
Qed.

Lemma stream_run_main st : stream (run_main st) = stream st.
Proof. apply (frame_run_main stream); intros; reflexivity. Qed.

Ltac past_cases :=
  unfold ret_of, exc_of, finally, cancel_tasks, drain_awaited,
    heartbeat_awaited, finish; cbv zeta; split_pc; reflexivity.

Lemma past_cancel_tasks first why st :
  past_loop (main (cancel_tasks first why (ret_of first why) (exc_of first)
                     st))
  = true.
Proof. destruct first; past_cases. Qed.

Lemma past_drain_awaited first why r st :
  past_loop (main (drain_awaited first why (ret_of first why) (exc_of first)
                     r st))
  = true.
Proof. destruct first, r; past_cases. Qed.

Lemma past_heartbeat_awaited first why r st :
  past_loop (main (heartbeat_awaited (ret_of first why) (exc_of first) r st))
  = true.
Proof. destruct first, r; past_cases. Qed.

Lemma past_finally why st : past_loop (main (finally why st)) = true.
Proof. apply (past_cancel_tasks false why). Qed.

Lemma leaving_not_exhausting pc : leaving pc = true -> exhausting pc = false.
Proof.
  destruct pc as [| | |f why|f why|why]; try discriminate;
    destruct why; try discriminate; reflexivity.
Qed.

Lemma merged_loop_quiet check q st :
  past_loop (main (merged_loop check q st)) = false ->
  drain_cancel (merged_loop check q st) = drain_cancel st.
Proof.
  revert check st. induction q as [|it q IH]; intros check st.
  - cbn [merged_loop]. destruct (check && _).
    + rewrite past_finally. discriminate.
    + reflexivity.
  - cbn [merged_loop]. destruct (check && _).
    { rewrite past_finally. discriminate. }
    assert (Hw : forall s,
              drain_cancel (wakeup_next_putter (set_queue q s))
              = drain_cancel s)
      by (intros s;
          now rewrite (frame_wakeup_next_putter drain_cancel)
            by (intros; reflexivity)).
    destruct it as [frame|e].
    + destruct (consumer _) as [|[|d|] rest].
      * intros Hp. rewrite (IH _ _ Hp). cbn. apply Hw.
      * intros Hp. rewrite (IH _ _ Hp). cbn. apply Hw.
      * intros _.
        rewrite (frame_suspend_for drain_cancel) by (intros; reflexivity).
        cbn. apply Hw.
      * rewrite past_finally. discriminate.
    + rewrite past_cancel_tasks. discriminate.
Qed.

Lemma merged_loop_exhausting check q st :
  exhausting (main (merged_loop check q st)) = true ->
  exists r, drain st = DrainDone r.
Proof.
  revert check st. induction q as [|it q IH]; intros check st.
  - cbn [merged_loop]. destruct (check && _) eqn:Hdone.
    + intros _. apply andb_true_iff in Hdone as [_ Hdone].
      destruct (drain st) as [| | |r]; try discriminate Hdone.
      now exists r.
    + discriminate.
  - cbn [merged_loop]. destruct (check && _) eqn:Hdone.
    { intros _. apply andb_true_iff in Hdone as [_ Hdone].
      destruct (drain st) as [| | |r]; try discriminate Hdone.
      now exists r. }
    assert (Hw : drain (wakeup_next_putter (set_queue q st)) = drain st)
      by (now rewrite (frame_wakeup_next_putter drain)
            by (intros; reflexivity)).
    destruct it as [frame|e].
    + destruct (consumer _) as [|[|d|] rest].
      * intros He. destruct (IH _ _ He) as [r Hr]. exists r.
        rewrite <- Hw. exact Hr.
      * intros He. destruct (IH _ _ He) as [r Hr]. exists r.
        rewrite <- Hw. exact Hr.
      * rewrite (frame_suspend_for main) by (intros; reflexivity).
        discriminate.
      * rewrite leaving_not_exhausting; [discriminate|].
        now apply (cancel_tasks_leaving false Closed).
    + rewrite leaving_not_exhausting; [discriminate|].
      now apply cancel_tasks_leaving.
Qed.

(** What a turn of [merged] tells about the turn before. *)
Lemma run_main_quiet st :
  past_loop (main (run_main st)) = false ->
  past_loop (main st) = false
  /\ drain_cancel (run_main st) = drain_cancel st.
Proof.
  unfold run_main.
  destruct (main st) as [| | |first why|first why|why] eqn:Hmain.
  - intros Hp. split; [reflexivity|]. now rewrite merged_loop_quiet.
  - intros Hp. split; [reflexivity|]. now rewrite merged_loop_quiet.
  - intros Hp. split; [reflexivity|]. now rewrite merged_loop_quiet.
  - destruct (drain st); rewrite ?past_drain_awaited, ?Hmain; discriminate.
  - destruct (heartbeat st); rewrite ?past_heartbeat_awaited, ?Hmain;
      discriminate.
  - rewrite Hmain. discriminate.
Qed.

Lemma run_main_exhausting st :
  exhausting (main (run_main st)) = true ->
  exhausting (main st) = true
  \/ (past_loop (main st) = false /\ exists r, drain st = DrainDone r).
Proof.
  unfold run_main.
  destruct (main st) as [| | |first why|first why|why] eqn:Hmain.
  - intros He. right. split; [reflexivity|].
    now apply merged_loop_exhausting in He.
  - intros He. right. split; [reflexivity|].
    now apply merged_loop_exhausting in He.
  - intros He. right. split; [reflexivity|].
    now apply merged_loop_exhausting in He.
  - intros He. left. destruct why; try reflexivity;
      (destruct (drain st); [rewrite Hmain in He; discriminate He ..|];
       rewrite leaving_not_exhausting in He; [discriminate He|];
       now apply drain_awaited_leaving).
  - intros He. left. destruct why; try reflexivity;
      (destruct (heartbeat st); [rewrite Hmain in He; discriminate He ..|];
       rewrite leaving_not_exhausting in He; [discriminate He|];
       now apply heartbeat_awaited_leaving).
  - rewrite Hmain. intros He. now left.
Qed.

Lemma untouched_frame script st st' :
  drain_cancel st' = drain_cancel st -> stream st' = stream st ->
  drain st' = drain st -> drain_frames st' = drain_frames st ->
  untouched script st -> untouched script st'.
Proof. unfold untouched. intros -> -> -> ->. auto. Qed.

Lemma run_main_source script st :
  source_inv script st -> source_inv script (run_main st).
Proof.
  intros [Hloop Hend]. split.
  - intros Hp. apply run_main_quiet in Hp as [Hp Hc].
    apply (untouched_frame script st);
      [exact Hc|apply stream_run_main|apply drain_run_main
      |apply drain_frames_run_main|now apply Hloop].
  - intros He. rewrite drain_run_main, drain_frames_run_main.
    apply run_main_exhausting in He as [He|[Hp [r Hr]]]; [now apply Hend|].
    destruct (Hloop Hp) as (_ & _ & Hs). rewrite Hr in Hs |- *.
    destruct r; try destruct Hs. split; reflexivity.
Qed.

Lemma step_source script hb st st' :
  source_inv script st -> step hb st = Some st' -> source_inv script st'.
Proof.
  intros Hinv. unfold step.
  destruct (ready st) as [|t rest] eqn:Hready.
  - intros Hfire.
    assert (Hfield : forall A (f : state -> A),
              (forall v s, f (set_ready v s) = f s) ->
              (forall v s, f (set_timers v s) = f s) ->
              (forall v s, f (set_now v s) = f s) ->
              f st' = f st).
    { intros A f H1 H2 H3.
      now apply (frame_fire_timers f) with (st := st). }
    unfold source_inv, untouched.
    rewrite (Hfield _ main), (Hfield _ drain), (Hfield _ drain_cancel),
      (Hfield _ stream), (Hfield _ drain_frames) by (intros; reflexivity).
    exact Hinv.
  - intros [= <-].
    assert (Hinv0 : source_inv script (set_ready rest st)) by exact Hinv.
    clear Hinv. revert Hinv0. generalize (set_ready rest st). clear.
    intros st [Hloop Hend]. destruct t; cbn [run_task].
    + now apply run_main_source.
    + split; rewrite main_run_drain.
      * intros Hp. now apply run_drain_untouched, Hloop.
      * intros He. destruct (Hend He) as [Hd Hs].
        destruct (run_drain_settled Returned st Hd) as [-> ->].
        split; [reflexivity|exact Hs].
    + split; rewrite main_run_heartbeat.
      * intros Hp. apply (untouched_frame script st);
          [apply (frame_run_heartbeat drain_cancel); intros; reflexivity
          |apply (frame_run_heartbeat stream); intros; reflexivity
          |apply drain_run_heartbeat
          |apply drain_frames_run_heartbeat
          |now apply Hloop].
      * intros He. rewrite drain_run_heartbeat, drain_frames_run_heartbeat.
        now apply Hend.
Qed.

Lemma exec_source script hb fuel st :
  source_inv script st -> source_inv script (exec hb fuel st).
Proof.
  revert st. induction fuel as [|fuel IH]; intros st Hinv; [exact Hinv|].
  cbn [exec]. destruct (main st); try exact Hinv;
    (destruct (step hb st) as [st'|] eqn:Hstep; [|exact Hinv];
     apply IH; eapply step_source; eassumption).
Qed.

Lemma start_source source reactions :
  forallb unfailing (steps source) = true ->
  source_inv (produced (steps source)) (start source reactions).
Proof.
  intros Hu. split; [|discriminate]. intros _.
  split; [reflexivity|split; [exact Hu|reflexivity]].
Qed.

Lemma drain_frames_sublist (l : list event) :
  omap (fun e => match e with
                 | Pushed _ Drain (Data f) => Some f
                 | _ => None
                 end) l
  `sublist_of`
  omap frame_of (omap (fun e => match e with
                                | Pushed _ _ it => Some it
                                | _ => None
                                end) l).
Proof.
  induction l as [|e l IH]; [constructor|].
  destruct e as [t who it| | | |]; cbn; try exact IH.
  destruct who, it; cbn; try exact IH;
    first [now apply sublist_skip|now apply sublist_cons].
Qed.

Lemma frame_of_data (l : list string) : omap frame_of (map Data l) = l.
Proof. induction l as [|f l IH]; [reflexivity|]. cbn. now rewrite IH. Qed.

Lemma exhausted_stream_delivered hb source reactions fuel :
  let final := exec hb fuel (start source reactions) in
  forallb prompt reactions = true ->
  forallb unfailing (steps source) = true ->
  main final = MainDone Exhausted ->
  drain final = DrainDone Returned
  /\ produced (steps source) `sublist_of` map snd (frames final).
Proof.
  intros final Hp Hu Hmain.
  assert (Hsrc : source_inv (produced (steps source)) final)
    by (apply exec_source, start_source; exact Hu).
  destruct Hsrc as [_ Hend]. rewrite Hmain in Hend.
  destruct (Hend eq_refl) as [Hd Hs]. split; [exact Hd|].
  assert (Hq : queue final = [])
    by (now apply exhausted_queue_empty).
  assert (Hfifo : fifo_inv final)
    by (apply exec_fifo, fifo_inv_loop; reflexivity).
  assert (Hall : pushed final = map Data (map snd (frames final))).
  { destruct Hfifo as (d & Hb & [->|[Hr _]]).
    - unfold balance in Hb. rewrite Hq, !app_nil_r in Hb.
      rewrite Hb. unfold yielded. now rewrite map_map.
    - rewrite Hmain in Hr. discriminate Hr. }
  rewrite Hs, <- (frame_of_data (map snd (frames final))), <- Hall.
  apply drain_frames_sublist.
Qed.
End SourceFacts.

Section SubscriptionFacts.
Import Mux MuxPrompt MuxSource.
Context {Context RootValue : Type}.
Context `{!ViewOps Context RootValue}.

Lemma unfailing_stream_of (results : SubscriptionExecutionResult)
  (separator : string) :
  forallb unfailing (steps (stream_of results separator))
  = forallb unfailing (steps results).
Proof.
  unfold stream_of. cbn [steps].
  induction (steps results) as [|s script IH]; [reflexivity|].
  cbn [map app forallb]. rewrite IH. now destruct s.
Qed.

(** X11. A subscription whose results raise nothing, served to a consumer
    that never stays away between two frames: when [merged] ends because
    the stream is exhausted, [drain] has returned, and the frames that the
    consumer has got hold, in the order of the results, one part for every
    result and then the closing boundary. *)
Theorem prompt_consumer_gets_every_part
  (results : SubscriptionExecutionResult) (reactions : list reaction)
  (fuel : nat) :
  let heartbeat_frame := encode_multipart_data (VDict []) "graphql" in
  let part r :=
    encode_multipart_data (VDict [("payload", process_result r)]) "graphql" in
  let final :=
    exec heartbeat_frame fuel
      (start (stream_of results "graphql") reactions) in
  forallb prompt reactions = true ->
  forallb unfailing (steps results) = true ->
  main final = MainDone Exhausted ->
  drain final = DrainDone Returned
  /\ map part (produced (steps results)) ++ [closing_frame "graphql"]
     `sublist_of` map snd (frames final).
Proof.
  intros heartbeat_frame part final Hp Hu Hmain.
  pose proof Hu as Hstream.
  rewrite <- (unfailing_stream_of results "graphql") in Hstream.
  destruct (exhausted_stream_delivered heartbeat_frame
              (stream_of results "graphql") reactions fuel Hp Hstream Hmain)
    as [Hd Hsub].
  split; [exact Hd|].
  rewrite (produced_stream_of results "graphql" Hu) in Hsub. exact Hsub.
Qed.
End SubscriptionFacts.

Lemma prompt_consumer_gets_every_part_witness :
  let results :=
    mkGen [Sleep 1; Produce Sample.hello_world; Sleep 6;
           Produce Sample.hello_world] None in
  let heartbeat_frame :=
    @encode_multipart_data _ _ (Sample.view true) (VDict []) "graphql" in
  let part r :=
    @encode_multipart_data _ _ (Sample.view true)
      (VDict [("payload", @process_result _ _ (Sample.view true) r)])
      "graphql" in
  let final :=
    Mux.exec heartbeat_frame 40
      (Mux.start (@stream_of _ _ (Sample.view true) results "graphql") []) in
  Mux.drain final = Mux.DrainDone Mux.Returned
  /\ map part (produced (steps results)) ++ [closing_frame "graphql"]
     `sublist_of` map snd (Mux.frames final).
Proof.
  apply (@prompt_consumer_gets_every_part _ _ (Sample.view true)
           (mkGen [Sleep 1; Produce Sample.hello_world; Sleep 6;
                   Produce Sample.hello_world] None) [] 40);
    vm_compute; reflexivity.
Defined.

(** * The remaining rows of the parser *)

Section MoreParserFacts.
Context {Context RootValue : Type}.
Context `{!Schema Context RootValue} `{!ViewOps Context RootValue}.

(** X12. A request other than GET with the content type of multipart
    subscriptions (and neither [application/json] in it nor
    [multipart/form-data]) is parsed from its body as JSON, under the
    protocol [multipart-subscription]: [parse_multipart_subscriptions] is
    reached with such requests only, so that its branch for GET never runs
    on behalf of [parse_http_body]. *)
Theorem subscription_post_reads_body (request : AsyncHTTPRequestAdapter) :
  let parsed :=
    parse_content_type (default EmptyString (content_type request)) in
  method request <> "GET" ->
  str_contains "application/json" parsed.1 = false ->
  parsed.1 <> "multipart/form-data" ->
  is_multipart_subscriptions parsed.1 parsed.2 = true ->
  parse_http_body request
  = (body ← get_body request;
     data ← parse_json body;
     request_data_of data multipart_subscription).
Proof.
  unfold parse_http_body.
  destruct (parse_content_type _) as [mime params].
  cbn [fst snd]. intros Hm Hjson Hform Hsub.
  destruct (String.eqb_spec (method request) "GET") as [Heq|Hne]; [done|].
  rewrite Hjson.
  destruct (String.eqb_spec mime "multipart/form-data"); [done|].
  rewrite Hsub. unfold parse_multipart_subscriptions.
  destruct (String.eqb_spec (method request) "GET") as [Heq|_]; [done|].
  destruct (get_body request) as [body|e]; [|reflexivity].
  cbn. destruct (parse_json body); reflexivity.
Qed.

(** X13. A [multipart/form-data] request other than GET whose
    [operations] field is a text that is no JSON, and a context that passes
    [assert context]: [run] raises [HTTPException 400 "Unable to parse
    request body as JSON"], before the files are looked at, whether the
    host's [parse_json] lets the [JSONDecodeError] out, which
    [execute_operation] then turns into this exception, or raises this
    exception itself. *)
Theorem run_unparseable_operations (request : AsyncHTTPRequestAdapter)
  (form_data : FormData) (text : string) :
  is_request_allowed request = true ->
  should_render_graphql_ide request = false ->
  truthy (get_context request) = true ->
  method request <> "GET" ->
  (parse_content_type (default EmptyString (content_type request))).1
  = "multipart/form-data" ->
  get_form_data request = Ok form_data ->
  form form_data !! "operations" = Some (VStr text) ->
  parse_json text = Raise JSONDecodeError
  \/ parse_json text
     = Raise (HTTPException 400 "Unable to parse request body as JSON") ->
  run request
  = Raise (HTTPException 400 "Unable to parse request body as JSON").
Proof.
  intros Hallowed Hide Hcontext Hm Hmime Hform Hops Hparse.
  assert (Hfail : forall e,
            parse_json text = Raise e -> parse_http_body request = Raise e).
  { intros e He. unfold parse_http_body.
    destruct (parse_content_type _) as [mime params]. cbn in Hmime.
    subst mime.
    destruct (String.eqb_spec (method request) "GET") as [Heq|_]; [done|].
    change (str_contains "application/json" "multipart/form-data")
      with false.
    cbn. unfold parse_multipart. rewrite Hform. cbn. rewrite Hops. cbn.
    rewrite He. reflexivity. }
  destruct Hparse as [Hparse|Hparse];
    rewrite (run_parse_failure request _ Hallowed Hide Hcontext
               (Hfail _ Hparse));
    reflexivity.
Qed.
End MoreParserFacts.

Lemma subscription_post_reads_body_witness :
  @parse_http_body _ _ (Sample.view true)
    (Sample.post_request Sample.subscription_content_type
       (Sample.dumps Sample.hello_operations))
  = Ok (mkRequestData (VStr Sample.hello_query) VNone VNone
          multipart_subscription).
Proof.
  rewrite (@subscription_post_reads_body _ _ (Sample.view true)
             (Sample.post_request Sample.subscription_content_type
                (Sample.dumps Sample.hello_operations)));
    first [ discriminate
          | (vm_compute; reflexivity)
          | (vm_compute; discriminate) ].
Defined.

Lemma run_unparseable_operations_witness :
  @run _ _ Sample.schema (Sample.view true)
    (Sample.form_request {[ "operations" := VStr "{ hello" ]} ∅)
  = Raise (HTTPException 400 "Unable to parse request body as JSON").
Proof.
  apply (@run_unparseable_operations _ _ Sample.schema (Sample.view true)
           (Sample.form_request {[ "operations" := VStr "{ hello" ]} ∅)
           (mkFormData {[ "operations" := VStr "{ hello" ]} ∅) "{ hello");
    first [ discriminate | (vm_compute; reflexivity)
          | (left; vm_compute; reflexivity) ].
Defined.
